(** * A REST request builder with bounded retry: model and properties

    Shallow embedding of package [rest] (request builder, attempt executor,
    retry controller, result decoding).  The builder mutates a [*request]
    in place and returns it; here every method takes the configuration and
    returns the updated one.  Calls to the HTTP client are recorded in an
    explicit log of wire requests, so that "the transport was invoked n
    times" is a statement about the length of that log. *)

From Stdlib Require Import ZArith NArith Ascii Lia.
From stdpp Require Import gmap strings list fin_maps sorting pretty.

Local Open Scope Z_scope.
Local Set Warnings "-register-all".

(* ===================================================================== *)
(** ** Go errors *)
(* ===================================================================== *)

(** The dynamic types of [error] values that the package inspects, and one
    constructor for every other dynamic type.  A wrapped [Err] field is an
    interface value and may be nil. *)
Inductive error : Type :=
| url_Error (Op URL : string) (Err : option error)      (* *url.Error *)
| net_OpError (Op Net : string) (Err : option error)    (* *net.OpError *)
| os_SyscallError (Syscall : string) (Err : option error) (* *os.SyscallError *)
| syscall_Errno (errno : Z)                             (* syscall.Errno *)
| io_ErrUnexpectedEOF                                   (* the io sentinel *)
| otherError (msg : string).                            (* errors.New, fmt.Errorf, json, ... *)

(** syscall.ECONNRESET (0x68 on linux). *)
Definition ECONNRESET : Z := 104.

Definition isConnectionReset (err : error) : bool :=
  let err : option error :=
    match err with
    | url_Error _ _ e => e
    | _ => Some err
    end in
  let err : option error :=
    match err with
    | Some (net_OpError _ _ e) => e
    | _ => err
    end in
  let err : option error :=
    match err with
    | Some (os_SyscallError _ e) => e
    | _ => err
    end in
  match err with
  | Some (syscall_Errno errno) => bool_decide (errno = ECONNRESET)
  | _ => false
  end.

(* ===================================================================== *)
(** ** Strings and bytes *)
(* ===================================================================== *)

Definition is_digit (c : ascii) : bool :=
  let n := N_of_ascii c in ((48 <=? n) && (n <=? 57))%N.
Definition is_lower (c : ascii) : bool :=
  let n := N_of_ascii c in ((97 <=? n) && (n <=? 122))%N.
Definition is_upper (c : ascii) : bool :=
  let n := N_of_ascii c in ((65 <=? n) && (n <=? 90))%N.
Definition is_alnum (c : ascii) : bool := is_lower c || is_upper c || is_digit c.

Definition char_in (c : ascii) (set : string) : bool :=
  existsb (Ascii.eqb c) (String.list_ascii_of_string set).

(** strings.TrimLeft(s, "/") *)
Fixpoint trimLeftSlash (s : string) : string :=
  match s with
  | String c s' => if Ascii.eqb c "/" then trimLeftSlash s' else s
  | EmptyString => s
  end.

(** strings.LastIndex(s, c) for a one-byte c: the index of the last
    occurrence, -1 when there is none.  [i] is the index of the head of
    [s] and [found] the last occurrence seen before it. *)
Fixpoint lastIndexFrom (c : ascii) (s : string) (i found : Z) : Z :=
  match s with
  | EmptyString => found
  | String a s' => lastIndexFrom c s' (i + 1) (if Ascii.eqb a c then i else found)
  end.

Definition LastIndex (s : string) (c : ascii) : Z := lastIndexFrom c s 0 (-1).

(** strings.TrimSuffix(s, c) for a one-byte c *)
Fixpoint TrimSuffix (s : string) (c : ascii) : string :=
  match s with
  | EmptyString => EmptyString
  | String a EmptyString => if Ascii.eqb a c then EmptyString else s
  | String a s' => String a (TrimSuffix s' c)
  end.

(** strings.Join *)
Fixpoint join (sep : string) (l : list string) : string :=
  match l with
  | [] => ""
  | [x] => x
  | x :: l' => x +:+ sep +:+ join sep l'
  end.

Definition hexdigit (n : N) : ascii :=
  nth (N.to_nat n) (String.list_ascii_of_string "0123456789ABCDEF") "0"%char.

(** url.QueryEscape: escape(s, encodeQueryComponent).  Letters, digits and
    [-_.~] are kept, a space becomes [+], every other byte becomes %XX. *)
Definition shouldEscape (c : ascii) : bool :=
  negb (is_alnum c || char_in c "-_.~").

Fixpoint QueryEscape (s : string) : string :=
  match s with
  | EmptyString => ""
  | String c s' =>
      if Ascii.eqb c " " then String "+" (QueryEscape s')
      else if shouldEscape c then
        let n := N_of_ascii c in
        String "%" (String (hexdigit (N.shiftr n 4))
                      (String (hexdigit (N.land n 15)) (QueryEscape s')))
      else String c (QueryEscape s')
  end.

(** base64.StdEncoding.EncodeToString *)
Definition b64char (n : N) : ascii :=
  nth (N.to_nat n)
    (String.list_ascii_of_string
       "ABCDEFGHIJKLMNOPQRSTUVWXYZabcdefghijklmnopqrstuvwxyz0123456789+/")
    "A"%char.

Fixpoint base64_bytes (l : list N) : list ascii :=
  match l with
  | [] => []
  | [a] =>
      let v := N.shiftl a 16 in
      [b64char (N.shiftr v 18); b64char (N.land (N.shiftr v 12) 63);
       "="%char; "="%char]
  | [a; b] =>
      let v := N.lor (N.shiftl a 16) (N.shiftl b 8) in
      [b64char (N.shiftr v 18); b64char (N.land (N.shiftr v 12) 63);
       b64char (N.land (N.shiftr v 6) 63); "="%char]
  | a :: b :: c :: rest =>
      let v := N.lor (N.lor (N.shiftl a 16) (N.shiftl b 8)) c in
      b64char (N.shiftr v 18) :: b64char (N.land (N.shiftr v 12) 63) ::
      b64char (N.land (N.shiftr v 6) 63) :: b64char (N.land v 63) ::
      base64_bytes rest
  end.

Definition base64_EncodeToString (s : string) : string :=
  String.string_of_list_ascii (base64_bytes (map N_of_ascii (String.list_ascii_of_string s))).

(** net/http basicAuth *)
Definition basicAuth (username password : string) : string :=
  base64_EncodeToString (username +:+ ":" +:+ password).

(* ===================================================================== *)
(** ** url.Values and http.Header: maps from a key to a list of values *)
(* ===================================================================== *)

Module Values.

(** v[key]: the values of a key, none when the key is absent *)
Definition index (v : gmap string (list string)) (key : string) : list string :=
  default [] (v !! key).

(** v[key] = append(v[key], value) *)
Definition Add (v : gmap string (list string)) (key value : string)
  : gmap string (list string) :=
  <[key := index v key ++ [value]]> v.

(** v[key] = []string{value} *)
Definition Set' (v : gmap string (list string)) (key value : string)
  : gmap string (list string) :=
  <[key := [value]]> v.

(** Byte-wise lexicographic order, the order of sort.Strings. *)
Definition string_le (a b : string) : Prop := String.leb a b = true.

#[global] Instance string_le_dec : RelDecision string_le :=
  λ a b, decide (String.leb a b = true).

(** The keys of the map, sorted. *)
Definition sortedKeys (v : gmap string (list string)) : list string :=
  merge_sort string_le (map_to_list v).*1.

(** The (key, value) pairs in the order Encode writes them. *)
Definition pairs (v : gmap string (list string)) : list (string * string) :=
  sortedKeys v ≫= λ k, (λ x, (k, x)) <$> index v k.

(** The pairs written for one key. *)
Definition pairsFor (k : string) (v : gmap string (list string))
  : list (string * string) :=
  filter (λ p, p.1 = k) (pairs v).

Definition renderPair (p : string * string) : string :=
  QueryEscape p.1 +:+ "=" +:+ QueryEscape p.2.

(** Encode: "k1=v1&k1=v2&k2=v3", keys sorted, everything escaped. *)
Definition Encode (v : gmap string (list string)) : string :=
  join "&" (renderPair <$> pairs v).

End Values.

Module Header.

Definition validHeaderFieldByte (c : ascii) : bool :=
  is_alnum c || char_in c "!#$%&'*+-.^_`|~".

Definition toUpper (c : ascii) : ascii :=
  if is_lower c then ascii_of_N (N_of_ascii c - 32) else c.
Definition toLower (c : ascii) : ascii :=
  if is_upper c then ascii_of_N (N_of_ascii c + 32) else c.

Fixpoint canon (upper : bool) (s : string) : string :=
  match s with
  | EmptyString => ""
  | String c s' =>
      let c' := if upper then toUpper c else toLower c in
      String c' (canon (Ascii.eqb c' "-") s')
  end.

(** textproto.CanonicalMIMEHeaderKey: a key with a byte that is not a
    header-field byte is returned unchanged. *)
Definition CanonicalMIMEHeaderKey (s : string) : string :=
  if forallb validHeaderFieldByte (String.list_ascii_of_string s)
  then canon true s else s.

Definition Add (h : gmap string (list string)) (key value : string)
  : gmap string (list string) :=
  let key := CanonicalMIMEHeaderKey key in
  <[key := default [] (h !! key) ++ [value]]> h.

Definition Set' (h : gmap string (list string)) (key value : string)
  : gmap string (list string) :=
  <[CanonicalMIMEHeaderKey key := [value]]> h.

Definition Del (h : gmap string (list string)) (key : string)
  : gmap string (list string) :=
  delete (CanonicalMIMEHeaderKey key) h.

(** h[CanonicalMIMEHeaderKey(key)], [None] when the key is absent *)
Definition lookup (h : gmap string (list string)) (key : string) : option (list string) :=
  h !! CanonicalMIMEHeaderKey key.

End Header.

(* ===================================================================== *)
(** ** Contexts, URLs, wire requests and the transport *)
(* ===================================================================== *)

(** context.Context values as the package builds them.  [ctxCanceled c] is
    the context [c] after its cancel function has run. *)
Inductive context : Type :=
| ctxBackground                              (* context.Background() *)
| ctxCaller (id : nat)                       (* a context of the caller's *)
| ctxWithTimeout (parent : context) (d : Z)  (* context.WithTimeout(parent, d) *)
| ctxCanceled (c : context).

(** url.URL *)
Record URL : Type := mkURL {
  Scheme : string;
  Opaque : string;
  User : option (string * option string);
  Host : string;
  Path : string;
  RawPath : string;
  OmitHost : bool;
  ForceQuery : bool;
  RawQuery : string;
  Fragment : string;
  RawFragment : string
}.

(** The zero value &url.URL{} *)
Definition zeroURL : URL := mkURL "" "" None "" "" "" false false "" "" "".

Definition URL_set_Path (u : URL) (p : string) : URL :=
  mkURL (Scheme u) (Opaque u) (User u) (Host u) p (RawPath u) (OmitHost u)
        (ForceQuery u) (RawQuery u) (Fragment u) (RawFragment u).

Definition URL_set_Host (u : URL) (h : string) : URL :=
  mkURL (Scheme u) (Opaque u) (User u) h (Path u) (RawPath u) (OmitHost u)
        (ForceQuery u) (RawQuery u) (Fragment u) (RawFragment u).

Definition URL_set_RawQuery (u : URL) (q : string) : URL :=
  mkURL (Scheme u) (Opaque u) (User u) (Host u) (Path u) (RawPath u) (OmitHost u)
        (ForceQuery u) q (Fragment u) (RawFragment u).

(** The part of http.Request the package touches. *)
Record wireRequest : Type := mkWire {
  req_Method : string;
  req_URL : URL;
  req_Header : gmap string (list string);
  req_Body : list Byte.byte;
  req_ctx : context
}.

Definition req_WithContext (req : wireRequest) (c : context) : wireRequest :=
  mkWire (req_Method req) (req_URL req) (req_Header req) (req_Body req) c.

Definition req_set_Header (req : wireRequest) (h : gmap string (list string))
  : wireRequest :=
  mkWire (req_Method req) (req_URL req) h (req_Body req) (req_ctx req).

(** req.SetBasicAuth: r.Header.Set("Authorization", "Basic "+basicAuth(u, p)) *)
Definition req_SetBasicAuth (req : wireRequest) (username password : string)
  : wireRequest :=
  req_set_Header req
    (Header.Set' (req_Header req) "Authorization"
       ("Basic " +:+ basicAuth username password)).

(** http.Response: status, and what ioutil.ReadAll yields on the body
    stream when there is one (the bytes read and the read error). *)
Record response : Type := mkResponse {
  resp_StatusCode : Z;
  resp_Status : string;
  resp_Body : option (list Byte.byte * option error)
}.

(** Every call of client.Do is appended to a log of the wire requests
    dispatched so far. *)
Definition world : Type := list wireRequest.

(** An http.Client seen from the package: what Do answers to a request,
    given the requests dispatched before it. *)
Definition Client : Type := world → wireRequest → response + error.

(** The functions of Go's standard library that the package calls and that
    are kept abstract.  [Any] is the type of the dynamic values behind
    interface{} (bodies, format arguments, decode targets). *)
Class GoLib : Type := {
  Any : Type;
  url_Parse : string → URL + error;
  URL_String : URL → string;
  fmt_Sprintf : string → list (option Any) → string;
  Duration_String : Z → string;
  strconv_Quote : string → string;
  json_Marshal : Any → list Byte.byte + error;
  (* Decode into the value a target pointer refers to: the value it holds
     afterwards and the error. *)
  json_Decode : list Byte.byte → Any → Any * option error;
  error_Error : error → string;
  http_DefaultClient : Client
}.

(** net/http validMethod: a non-empty token *)
Definition validMethod (method : string) : bool :=
  negb (String.eqb method "") &&
  forallb Header.validHeaderFieldByte (String.list_ascii_of_string method).

(** net/http hasPort: whether a host of the form host, host:port or
    [ipv6::address]:port includes a port *)
Definition hasPort (s : string) : bool := LastIndex s ":" >? LastIndex s "]".

(** net/http removeEmptyPort: an empty port is stripped, "host:" becomes
    "host" *)
Definition removeEmptyPort (host : string) : string :=
  if hasPort host then TrimSuffix host ":" else host.

(** http.MethodGet and friends *)
Definition MethodGet : string := "GET".
Definition MethodPost : string := "POST".
Definition MethodPut : string := "PUT".
Definition MethodPatch : string := "PATCH".
Definition MethodDelete : string := "DELETE".

(** http.StatusOK *)
Definition StatusOK : Z := 200.

Section Library.
Context `{GoLib}.

(** http.NewRequest(method, url, body): the method defaults to GET and
    has to be a token, the URL is parsed, and the host of the parsed URL
    is normalized with removeEmptyPort. *)
Definition http_NewRequest (method url : string) (body : list Byte.byte)
  : wireRequest + error :=
  let method := if String.eqb method "" then "GET" else method in
  if negb (validMethod method)
  then inr (otherError ("net/http: invalid method " +:+ strconv_Quote method))
  else match url_Parse url with
       | inr e => inr e
       | inl u =>
           let u := URL_set_Host u (removeEmptyPort (Host u)) in
           inl (mkWire method u ∅ body ctxBackground)
       end.

End Library.

(* ===================================================================== *)
(** ** Result, first revision: decode checks the HTTP status *)
(* ===================================================================== *)

Module ResultV1.

Record result : Type := mkResult {
  body : list Byte.byte;
  err : option error;
  statusCode : Z;
  status : string
}.

Definition zero : result := mkResult [] None 0 "".

Section Into.
Context `{GoLib}.

(** Into(obj): the result is not assigned to; [obj] is the value behind
    the target pointer, [None] for a nil target.  Returns the result, the
    target afterwards and the returned error. *)
Definition Into (r : result) (obj : option Any)
  : result * option Any * option error :=
  match err r with
  | Some e => (r, obj, Some e)
  | None =>
      if negb (statusCode r =? StatusOK)
      then (r, obj, Some (otherError ("http response with status: " +:+ status r)))
      else match obj with
           | Some o =>
               let '(o', e) := json_Decode (body r) o in
               match e with
               | Some e =>
                   (r, Some o',
                    Some (otherError ("http response body decode error: " +:+
                                      error_Error e +:+ ", raw data: " +:+
                                      String.string_of_list_byte (body r))))
               | None => (r, Some o', None)
               end
           | None => (r, obj, None)
           end
  end.

End Into.
End ResultV1.

(* ===================================================================== *)
(** ** Result, second revision: status accessor, empty-body check *)
(* ===================================================================== *)

Module ResultV2.

Record result : Type := mkResult {
  body : list Byte.byte;
  err : option error;
  statusCode : Z
}.

Definition zero : result := mkResult [] None 0.

Definition set_err (r : result) (e : option error) : result :=
  mkResult (body r) e (statusCode r).
Definition set_body (r : result) (b : list Byte.byte) : result :=
  mkResult b (err r) (statusCode r).
Definition set_statusCode (r : result) (c : Z) : result :=
  mkResult (body r) (err r) c.

(** Pointers to int: a cell of the caller's store, or the address of the
    [statusCode] field of the receiver. *)
Inductive intptr : Type :=
| Cell (l : nat)
| FieldStatusCode.

(** StatusCode(statusCode *int): the parameter is a local variable.  The
    function returns the receiver, the store of int cells, and the final
    value of the local (nothing reads it). *)
Definition StatusCode (r : result) (statusCode : option intptr) (mem : gmap nat Z)
  : result * gmap nat Z * option intptr :=
  let statusCode :=
    match statusCode with
    | Some _ => Some FieldStatusCode          (* statusCode = &r.statusCode *)
    | None => statusCode
    end in
  (r, mem, statusCode).

(** What a read through a pointer yields. *)
Definition deref (r : result) (mem : gmap nat Z) (p : intptr) : option Z :=
  match p with
  | Cell l => mem !! l
  | FieldStatusCode => Some (ResultV2.statusCode r)
  end.

Section Into.
Context `{GoLib}.

Definition Into (r : result) (obj : option Any)
  : result * option Any * option error :=
  match err r with
  | Some e => (r, obj, Some e)
  | None =>
      match obj with
      | Some o =>
          if bool_decide (length (body r) = 0%nat)
          then (r, obj,
                Some (otherError ("empty response body with status code: " +:+
                                  pretty (statusCode r))))
          else
            let '(o', e) := json_Decode (body r) o in
            match e with
            | Some e =>
                (r, Some o',
                 Some (otherError ("decode response body error: " +:+ error_Error e)))
            | None => (r, Some o', None)
            end
      | None => (r, obj, None)
      end
  end.

End Into.
End ResultV2.

(* ===================================================================== *)
(** ** The client factory *)
(* ===================================================================== *)

Record restClient : Type := mkRestClient {
  rc_client : option Client;
  rc_baseURL : string;
  rc_username : string;
  rc_password : string
}.

Definition NewClient (client : option Client) (baseURL : string) : restClient :=
  mkRestClient client baseURL "" "".

Definition SetBasicAuth (rc : restClient) (username password : string) : restClient :=
  mkRestClient (rc_client rc) (rc_baseURL rc) username password.

(* ===================================================================== *)
(** ** The request builder *)
(* ===================================================================== *)

Section Request.
Context `{GoLib}.

Record request : Type := mkRequest {
  client : option Client;
  method : string;
  params : option (gmap string (list string));
  header : option (gmap string (list string));
  body : list Byte.byte;
  ctx : option context;
  baseURL : string;
  subPath : string;
  subPathArgs : list (option Any);
  retryCount : Z;
  retryInterval : Z;
  timeout : Z;
  username : string;
  password : string;
  err : option error
}.

Definition set_params (r : request) (x : option (gmap string (list string))) : request :=
  mkRequest (client r) (method r) x (header r) (body r) (ctx r) (baseURL r)
    (subPath r) (subPathArgs r) (retryCount r) (retryInterval r) (timeout r)
    (username r) (password r) (err r).
Definition set_header (r : request) (x : option (gmap string (list string))) : request :=
  mkRequest (client r) (method r) (params r) x (body r) (ctx r) (baseURL r)
    (subPath r) (subPathArgs r) (retryCount r) (retryInterval r) (timeout r)
    (username r) (password r) (err r).
Definition set_body (r : request) (x : list Byte.byte) : request :=
  mkRequest (client r) (method r) (params r) (header r) x (ctx r) (baseURL r)
    (subPath r) (subPathArgs r) (retryCount r) (retryInterval r) (timeout r)
    (username r) (password r) (err r).
Definition set_ctx (r : request) (x : option context) : request :=
  mkRequest (client r) (method r) (params r) (header r) (body r) x (baseURL r)
    (subPath r) (subPathArgs r) (retryCount r) (retryInterval r) (timeout r)
    (username r) (password r) (err r).
Definition set_subPath (r : request) (x : string) : request :=
  mkRequest (client r) (method r) (params r) (header r) (body r) (ctx r) (baseURL r)
    x (subPathArgs r) (retryCount r) (retryInterval r) (timeout r)
    (username r) (password r) (err r).
Definition set_subPathArgs (r : request) (x : list (option Any)) : request :=
  mkRequest (client r) (method r) (params r) (header r) (body r) (ctx r) (baseURL r)
    (subPath r) x (retryCount r) (retryInterval r) (timeout r)
    (username r) (password r) (err r).
Definition set_retryCount (r : request) (x : Z) : request :=
  mkRequest (client r) (method r) (params r) (header r) (body r) (ctx r) (baseURL r)
    (subPath r) (subPathArgs r) x (retryInterval r) (timeout r)
    (username r) (password r) (err r).
Definition set_retryInterval (r : request) (x : Z) : request :=
  mkRequest (client r) (method r) (params r) (header r) (body r) (ctx r) (baseURL r)
    (subPath r) (subPathArgs r) (retryCount r) x (timeout r)
    (username r) (password r) (err r).
Definition set_timeout (r : request) (x : Z) : request :=
  mkRequest (client r) (method r) (params r) (header r) (body r) (ctx r) (baseURL r)
    (subPath r) (subPathArgs r) (retryCount r) (retryInterval r) x
    (username r) (password r) (err r).
Definition set_err (r : request) (x : option error) : request :=
  mkRequest (client r) (method r) (params r) (header r) (body r) (ctx r) (baseURL r)
    (subPath r) (subPathArgs r) (retryCount r) (retryInterval r) (timeout r)
    (username r) (password r) x.

(** rc.method(method): a fresh request seeded with the client's base URL
    and credentials. *)
Definition rc_method (rc : restClient) (method : string) : request :=
  mkRequest (rc_client rc) method None None [] None (rc_baseURL rc) "" [] 0 0 0
    (rc_username rc) (rc_password rc) None.

Definition Post (rc : restClient) : request := rc_method rc MethodPost.
Definition Put (rc : restClient) : request := rc_method rc MethodPut.
Definition Get (rc : restClient) : request := rc_method rc MethodGet.
Definition Delete (rc : restClient) : request := rc_method rc MethodDelete.
Definition Patch (rc : restClient) : request := rc_method rc MethodPatch.

(** r.params[name] = append(r.params[name], value), on a map made when
    r.params is nil. *)
Definition WithParam (r : request) (name value : string) : request :=
  let ps := default ∅ (params r) in
  set_params r (Some (<[name := default [] (ps !! name) ++ [value]]> ps)).

(** The argument is a map[string]string: one value per name. *)
Definition WithParams (r : request) (ps' : gmap string string) : request :=
  let ps := default ∅ (params r) in
  set_params r
    (Some (map_fold (λ name value ps, <[name := default [] (ps !! name) ++ [value]]> ps)
             ps ps')).

(** The first header set is adopted as it is (a nil one too); later ones
    are added value by value.  Go ranges over the argument in an
    unspecified order; [map_fold] fixes one. *)
Definition WithHeader (r : request) (h : option (gmap string (list string))) : request :=
  match header r with
  | None => set_header r h
  | Some cur =>
      set_header r
        (Some (map_fold (λ key values cur,
                           fold_left (λ cur v, Header.Add cur key v) values cur)
                 cur (default ∅ h)))
  end.

Definition WithContext (r : request) (c : option context) : request := set_ctx r c.
Definition WithTimeout (r : request) (d : Z) : request := set_timeout r d.
Definition WithMaxRetry (r : request) (count : Z) : request := set_retryCount r count.
Definition WithRetryInterval (r : request) (d : Z) : request := set_retryInterval r d.

Definition subResource (r : request) (subPath : string) : request :=
  set_subPath r (trimLeftSlash subPath).

Definition SubResourcef (r : request) (subPath : string) (args : list (option Any))
  : request :=
  subResource (set_subPathArgs r args) subPath.

(** Body(body): [None] is the nil interface value. *)
Definition Body (r : request) (b : option Any) : request :=
  match b with
  | None => set_body r []
  | Some v =>
      match json_Marshal v with
      | inr e => set_body (set_err r (Some e)) []
      | inl data => set_body r data
      end
  end.

(* ===================================================================== *)
(** ** URL composition *)
(* ===================================================================== *)

(** The local [query] of wrapURL: every value of every parameter added to
    an empty url.Values, then the timeout set over it. *)
Definition wrapQuery (r : request) : gmap string (list string) :=
  let query :=
    map_fold (λ key values query,
                fold_left (λ query value, Values.Add query key value) values query)
      ∅ (default ∅ (params r)) in
  if negb (timeout r =? 0)
  then Values.Set' query "timeout" (Duration_String (timeout r))
  else query.

(** wrapURL: returns the configuration too, since a parse failure is
    recorded in r.err. *)
Definition wrapURL (r : request) : request * URL :=
  let parsed : URL + error :=
    if negb (String.length (baseURL r) =? 0)%nat
    then url_Parse (baseURL r)
    else inl zeroURL in
  match parsed with
  | inr e => (set_err r (Some e), zeroURL)
  | inl finalUrl =>
      let finalUrl :=
        if (0 <? length (subPathArgs r))%nat
        then URL_set_Path finalUrl
               (Path finalUrl +:+ fmt_Sprintf (subPath r) (subPathArgs r))
        else URL_set_Path finalUrl (Path finalUrl +:+ subPath r) in
      (r, URL_set_RawQuery finalUrl (Values.Encode (wrapQuery r)))
  end.

(* ===================================================================== *)
(** ** One attempt, and the retry loop *)
(* ===================================================================== *)

(** The header of the wire request: a clone of the configured one, an
    empty one when that has no entry, content negotiation forced. *)
Definition attemptHeader (r : request) : gmap string (list string) :=
  let h := default ∅ (header r) in
  let h := Header.Del h "Accept-Encoding" in
  let h := Header.Set' h "Content-Type" "application/json" in
  let h := Header.Set' h "Accept" "application/json" in
  Header.Set' h "Accept-Charset" "utf-8".

(** tryOnce: the result, whether to retry, the configuration afterwards
    (wrapURL may have set r.err; r.ctx is replaced when a timeout is set,
    and the deferred cancel function has run on return), and the log. *)
Definition tryOnce (r : request) (w : world)
  : (ResultV2.result * bool) * request * world :=
  let rt := ResultV2.zero in
  let '(r, url) := wrapURL r in
  let u := URL_String url in
  match http_NewRequest (method r) u (body r) with
  | inr e => ((ResultV2.set_err rt (Some e), false), r, w)
  | inl req =>
      (* if r.timeout > 0: r.ctx, cancelFn = context.WithTimeout(r.ctx, r.timeout) *)
      let r :=
        if 0 <? timeout r
        then set_ctx r (Some (ctxWithTimeout (default ctxBackground (ctx r)) (timeout r)))
        else r in
      let req :=
        match ctx r with
        | Some c => req_WithContext req c
        | None => req
        end in
      let req := req_set_Header req (attemptHeader r) in
      let req := req_SetBasicAuth req (username r) (password r) in
      let client := default http_DefaultClient (client r) in
      let answer := client w req in
      let w := w ++ [req] in
      (* defer cancelFn() *)
      let r :=
        if 0 <? timeout r
        then set_ctx r (option_map ctxCanceled (ctx r))
        else r in
      match answer with
      | inr e =>
          if negb (isConnectionReset e) || negb (String.eqb (method r) MethodGet)
          then ((ResultV2.set_err rt (Some e), false), r, w)
          else ((rt, true), r, w)
      | inl resp =>
          match resp_Body resp with
          | Some (data, Some e) =>
              match e with
              | io_ErrUnexpectedEOF => ((rt, true), r, w)
              | _ => ((ResultV2.set_err rt (Some e), false), r, w)
              end
          | Some (data, None) =>
              ((ResultV2.set_statusCode (ResultV2.set_body rt data)
                  (resp_StatusCode resp), false), r, w)
          | None =>
              ((ResultV2.set_statusCode (ResultV2.set_body rt [])
                  (resp_StatusCode resp), false), r, w)
          end
      end
  end.

(** for try := 0; try < r.retryCount; try++ { ... }, with [n] iterations
    left; falling out of the loop sets the exhausted-retries error on the
    result of the last attempt. *)
Fixpoint retryLoop (n : nat) (rt : ResultV2.result) (r : request) (w : world)
  : ResultV2.result * request * world :=
  match n with
  | O => (ResultV2.set_err rt (Some (otherError "unexpected error")), r, w)
  | S n' =>
      let '((rt, retry), r, w) := tryOnce r w in
      if negb retry then (rt, r, w) else retryLoop n' rt r w
  end.

Definition Do (r : request) (w : world) : ResultV2.result * request * world :=
  match err r with
  | Some e => (ResultV2.set_err ResultV2.zero (Some e), r, w)
  | None =>
      let '((rt, retry), r, w) := tryOnce r w in
      if negb retry then (rt, r, w)
      else retryLoop (Z.to_nat (retryCount r)) rt r w
  end.

End Request.

(* ===================================================================== *)
(** ** A small library instance, for running the model on concrete inputs *)
(* ===================================================================== *)

Module Sample.

(** Dynamic values: two that encoding/json can serialize and two that it
    rejects with an UnsupportedTypeError. *)
Inductive value : Type :=
| VInt (n : Z)
| VStr (s : string)
| VChan
| VFunc.

Definition dquote : string := String (ascii_of_nat 34) "".

Definition quote (s : string) : string := dquote +:+ s +:+ dquote.

Definition bytes (s : string) : list Byte.byte := String.list_byte_of_string s.

Fixpoint hasPrefix (p s : string) : bool :=
  match p, s with
  | EmptyString, _ => true
  | String a p', String b s' => Ascii.eqb a b && hasPrefix p' s'
  | _, EmptyString => false
  end.

Fixpoint dropn (n : nat) (s : string) : string :=
  match n, s with
  | S n', String _ s' => dropn n' s'
  | _, _ => s
  end.

(** Split at the first occurrence of the byte [c]: the part before it and,
    when it occurs, the part after it. *)
Fixpoint cut (c : ascii) (s : string) : string * option string :=
  match s with
  | EmptyString => ("", None)
  | String a s' =>
      if Ascii.eqb a c then ("", Some s')
      else let '(x, y) := cut c s' in (String a x, y)
  end.

Definition isCTL (c : ascii) : bool :=
  let n := N_of_ascii c in ((n <? 32) || (n =? 127))%N.

(** A fragment of url.Parse: control bytes and a leading colon are
    rejected as Go rejects them; otherwise scheme://host/path?query. *)
Definition parse (rawURL : string) : URL + error :=
  if existsb isCTL (String.list_ascii_of_string rawURL)
  then inr (url_Error "parse" rawURL
              (Some (otherError "net/url: invalid control character in URL")))
  else if hasPrefix ":" rawURL
  then inr (url_Error "parse" rawURL (Some (otherError "missing protocol scheme")))
  else
    let '(rest, query) := cut "?" rawURL in
    let '(scheme, rest) :=
      if hasPrefix "http://" rest then ("http", dropn 7 rest)
      else if hasPrefix "https://" rest then ("https", dropn 8 rest)
      else ("", rest) in
    let '(host, path) :=
      if String.eqb scheme "" then ("", rest)
      else let '(h, p) := cut "/" rest in
           (h, match p with Some p => String "/" p | None => "" end) in
    inl (mkURL scheme "" None host path "" false false (default "" query) "" "").

Definition urlString (u : URL) : string :=
  (if String.eqb (Scheme u) "" then "" else Scheme u +:+ "://" +:+ Host u) +:+
  (if negb (String.eqb (Host u) "") && negb (String.eqb (Path u) "")
      && negb (hasPrefix "/" (Path u))
   then "/" +:+ Path u else Path u) +:+
  (if String.eqb (RawQuery u) "" then "" else "?" +:+ RawQuery u).

Definition show (v : option value) : string :=
  match v with
  | Some (VInt n) => pretty n
  | Some (VStr s) => s
  | Some VChan => "0xc000010000"
  | Some VFunc => "0x47b060"
  | None => "%!v(<nil>)"
  end.

(** Verbs %d, %s, %v replaced by the arguments in order. *)
Fixpoint sprintf (format : string) (args : list (option value)) : string :=
  match format with
  | String "%" (String c rest) =>
      if char_in c "dsv" then
        match args with
        | a :: args' => show a +:+ sprintf rest args'
        | [] => "%!" +:+ String c "(MISSING)" +:+ sprintf rest []
        end
      else String "%" (String c (sprintf rest args))
  | String c rest => String c (sprintf rest args)
  | EmptyString => ""
  end.

(** Whole seconds below a minute print as Go prints them. *)
Definition durationString (d : Z) : string :=
  if (d mod 1000000000 =? 0) && (0 <=? d) && (d <? 60000000000)
  then pretty (d / 1000000000) +:+ "s"
  else pretty d +:+ "ns".

Definition marshal (v : value) : list Byte.byte + error :=
  match v with
  | VInt n => inl (bytes (pretty n))
  | VStr s => inl (bytes (quote s))
  | VChan => inr (otherError "json: unsupported type: chan int")
  | VFunc => inr (otherError "json: unsupported type: func()")
  end.

Fixpoint digits (acc : Z) (s : string) : option Z :=
  match s with
  | EmptyString => Some acc
  | String c s' =>
      if is_digit c
      then digits (10 * acc + Z.of_N (N_of_ascii c) - 48) s'
      else None
  end.

(** Decoding into an integer target: the body has to be a decimal number. *)
Definition decode (b : list Byte.byte) (target : value) : value * option error :=
  match target, String.string_of_list_byte b with
  | VInt _, String c s =>
      match digits 0 (String c s) with
      | Some n => (VInt n, None)
      | None => (target, Some (otherError "invalid character looking for beginning of value"))
      end
  | _, _ => (target, Some (otherError "json: cannot unmarshal into Go value"))
  end.

Fixpoint errorText (e : error) : string :=
  let inner (o : option error) : string :=
    match o with Some e' => errorText e' | None => "<nil>" end in
  match e with
  | url_Error op u o => op +:+ " " +:+ quote u +:+ ": " +:+ inner o
  | net_OpError op net o => op +:+ " " +:+ net +:+ ": " +:+ inner o
  | os_SyscallError sc o => sc +:+ ": " +:+ inner o
  | syscall_Errno n =>
      if n =? ECONNRESET then "connection reset by peer"
      else "errno " +:+ pretty n
  | io_ErrUnexpectedEOF => "unexpected EOF"
  | otherError msg => msg
  end.

(** The error of a transport whose peer resets the connection. *)
Definition connReset (req : wireRequest) : error :=
  url_Error "Get" (urlString (req_URL req))
    (Some (net_OpError "read" "tcp"
             (Some (os_SyscallError "read" (Some (syscall_Errno ECONNRESET)))))).

(** A client whose every round trip ends in a connection reset. *)
Definition resetClient : Client := λ _ req, inr (connReset req).

(** A client that answers 200 with the body [b]. *)
Definition okClient (b : string) : Client :=
  λ _ _, inl (mkResponse 200 "200 OK" (Some (bytes b, None))).

(** A client whose responses break off while the body is read. *)
Definition truncatingClient : Client :=
  λ _ _, inl (mkResponse 200 "200 OK" (Some (bytes "{", Some io_ErrUnexpectedEOF))).

(** The default client has no transport for a URL without a scheme, and
    is refused by every host. *)
Definition defaultClient : Client :=
  λ _ req,
    if String.eqb (Scheme (req_URL req)) ""
    then inr (url_Error "Get" (urlString (req_URL req))
                (Some (otherError "unsupported protocol scheme")))
    else inr (url_Error "Get" (urlString (req_URL req))
                (Some (net_OpError "dial" "tcp"
                         (Some (os_SyscallError "connect" (Some (syscall_Errno 111))))))).

Definition lib : GoLib := {|
  Any := value;
  url_Parse := parse;
  URL_String := urlString;
  fmt_Sprintf := sprintf;
  Duration_String := durationString;
  strconv_Quote := quote;
  json_Marshal := marshal;
  json_Decode := decode;
  error_Error := errorText;
  http_DefaultClient := defaultClient
|}.

End Sample.

(* ===================================================================== *)
(** ** Notions used in the statements *)
(* ===================================================================== *)

(** The number of client.Do calls between two states of the log. *)
Definition invocations (w w' : world) : Z :=
  Z.of_nat (length w') - Z.of_nat (length w).

(** The result Do returns when every attempt asked for a retry. *)
Definition exhausted : ResultV2.result :=
  ResultV2.mkResult [] (Some (otherError "unexpected error")) 0.

(** [sub] occurs in [s]. *)
Definition contains (s sub : string) : Prop :=
  ∃ pre post, s = pre +:+ sub +:+ post.

Section Notions.
Context `{GoLib}.

(** The decoder's verdict on given bytes does not depend on what the
    target holds from an earlier decode of the same bytes. *)
Definition decode_stable : Prop :=
  ∀ (b : list Byte.byte) (o : Any),
    (json_Decode b (json_Decode b o).1).2 = (json_Decode b o).2.

(** [r'] is [r] up to the two fields an attempt assigns: err and ctx. *)
Definition same_config (r r' : request) : Prop :=
  r' = set_ctx (set_err r (err r')) (ctx r').

(** The base URL as wrapURL reads it. *)
Definition parsedBase (r : request) : URL + error :=
  if negb (String.length (baseURL r) =? 0)%nat
  then url_Parse (baseURL r)
  else inl zeroURL.

(** The wire request of an attempt, from the one NewRequest returns:
    context, header and credentials as tryOnce applies them. *)
Definition dressed (r : request) (req : wireRequest) : wireRequest :=
  let c :=
    if 0 <? timeout r
    then Some (ctxWithTimeout (default ctxBackground (ctx r)) (timeout r))
    else ctx r in
  let req := match c with Some c => req_WithContext req c | None => req end in
  req_SetBasicAuth (req_set_Header req (attemptHeader r)) (username r) (password r).

(** The configuration on return from an attempt that reached the transport. *)
Definition afterAttempt (r : request) : request :=
  if 0 <? timeout r
  then set_ctx r (Some (ctxCanceled
                          (ctxWithTimeout (default ctxBackground (ctx r)) (timeout r))))
  else r.

(** How tryOnce classifies what the client and the body read return. *)
Definition classify (method : string) (answer : response + error)
  : ResultV2.result * bool :=
  match answer with
  | inr e =>
      if negb (isConnectionReset e) || negb (String.eqb method MethodGet)
      then (ResultV2.mkResult [] (Some e) 0, false)
      else (ResultV2.zero, true)
  | inl resp =>
      match resp_Body resp with
      | Some (data, Some io_ErrUnexpectedEOF) => (ResultV2.zero, true)
      | Some (data, Some e) => (ResultV2.mkResult [] (Some e) 0, false)
      | Some (data, None) => (ResultV2.mkResult data None (resp_StatusCode resp), false)
      | None => (ResultV2.mkResult [] None (resp_StatusCode resp), false)
      end
  end.

(** The client an attempt dispatches through. *)
Definition effectiveClient (r : request) : Client :=
  default http_DefaultClient (client r).

(** Every round trip of the client fails with a connection reset. *)
Definition always_reset (c : Client) : Prop :=
  ∀ (w : world) (req : wireRequest),
    ∃ e, c w req = inr e ∧ isConnectionReset e = true.

(** http.NewRequest accepts the method and the composed URL. *)
Definition buildable (r : request) : Prop :=
  ∃ req0, http_NewRequest (method r) (URL_String (wrapURL r).2) (body r) = inl req0.

(** The calls of the Request interface other than Do. *)
Inductive builderCall : Type :=
| CallWithParam (name value : string)
| CallWithParams (ps : gmap string string)
| CallWithHeader (h : option (gmap string (list string)))
| CallWithContext (c : option context)
| CallWithTimeout (d : Z)
| CallWithMaxRetry (count : Z)
| CallWithRetryInterval (d : Z)
| CallSubResourcef (subPath : string) (args : list (option Any))
| CallBody (b : option Any).

Definition applyCall (r : request) (c : builderCall) : request :=
  match c with
  | CallWithParam name value => WithParam r name value
  | CallWithParams ps => WithParams r ps
  | CallWithHeader h => WithHeader r h
  | CallWithContext c => WithContext r c
  | CallWithTimeout d => WithTimeout r d
  | CallWithMaxRetry count => WithMaxRetry r count
  | CallWithRetryInterval d => WithRetryInterval r d
  | CallSubResourcef subPath args => SubResourcef r subPath args
  | CallBody b => Body r b
  end.

(** A use of a request: a builder call, or Do. *)
Inductive step : Type :=
| Build (c : builderCall)
| Execute.

(** A Body call whose value json.Marshal rejects. *)
Definition failingBody (s : step) : bool :=
  match s with
  | Build (CallBody (Some v)) =>
      match json_Marshal v with inr _ => true | inl _ => false end
  | _ => false
  end.

(** Run a sequence of uses.  For every Do it lists the result returned
    together with the content of r.err at the time of the call. *)
Fixpoint run (steps : list step) (r : request) (w : world)
  : list (ResultV2.result * option error) * request * world :=
  match steps with
  | [] => ([], r, w)
  | Build c :: rest => run rest (applyCall r c) w
  | Execute :: rest =>
      let '(rt, r', w') := Do r w in
      let '(rts, r'', w'') := run rest r' w' in
      ((rt, err r) :: rts, r'', w'')
  end.

(** The configuration the builder calls among [steps] give to [r], the
    calls of Do left out. *)
Fixpoint configuredBy (steps : list step) (r : request) : request :=
  match steps with
  | [] => r
  | Build c :: rest => configuredBy rest (applyCall r c)
  | Execute :: rest => configuredBy rest r
  end.

(** The error shown by a Do under a set error field. *)
Definition shortCircuited (x : ResultV2.result * option error) : Prop :=
  is_Some x.2 ∧ x.1 = ResultV2.mkResult [] x.2 0.

(** The parameters of a configuration, a nil map read as an empty one. *)
Definition paramsOf (r : request) : gmap string (list string) :=
  default ∅ (params r).

End Notions.

(* ===================================================================== *)
(** ** Concrete configurations *)
(* ===================================================================== *)

Definition exampleBase : string := "https://api.example.com".

Definition exampleBaseURL : URL :=
  mkURL "https" "" None "api.example.com" "" "" false false "" "" "".

(** GET /users/42 with two retries, through a client whose peer resets
    every connection. *)
Definition getUser : @request Sample.lib :=
  WithMaxRetry
    (SubResourcef (@Get Sample.lib (NewClient (Some Sample.resetClient) exampleBase))
       "/users/%d" [Some (Sample.VInt 42)])
    2.

(** POST with one retry, through a client whose response bodies break off. *)
Definition postTruncated : @request Sample.lib :=
  WithMaxRetry (@Post Sample.lib (NewClient (Some Sample.truncatingClient) exampleBase)) 1.

(** GET on a client made with a base URL that url.Parse rejects. *)
Definition getBadBase : @request Sample.lib :=
  @Get Sample.lib (NewClient None "://api.example.com").

Definition badBaseError : error :=
  url_Error "parse" "://api.example.com" (Some (otherError "missing protocol scheme")).

(** GET on a client that never had credentials set. *)
Definition getAnonymous : @request Sample.lib :=
  @Get Sample.lib (NewClient (Some (Sample.okClient "{}")) exampleBase).

(** A body that cannot be serialized. *)
Definition postChan : @request Sample.lib :=
  Body (@Post Sample.lib (NewClient (Some (Sample.okClient "{}")) exampleBase))
    (Some Sample.VChan).

Definition chanError : error := otherError "json: unsupported type: chan int".
Definition funcError : error := otherError "json: unsupported type: func()".

(** A caller-supplied timeout parameter and a configured timeout of 5s. *)
Definition getWithTimeout : @request Sample.lib :=
  WithTimeout
    (WithParam (@Get Sample.lib (NewClient (Some (Sample.okClient "{}")) exampleBase))
       "timeout" "1s")
    5000000000.

(** Builder calls and executions after the failed Body call. *)
Definition laterUses : list (@step Sample.lib) :=
  [Build (CallWithParam "limit" "10"); Execute;
   Build (@CallBody Sample.lib (Some (Sample.VInt 1)));
   Build (CallWithMaxRetry 3); Execute].

(* ===================================================================== *)
(** ** The earlier revision of Do *)
(* ===================================================================== *)

(** The earlier request.go has the same builder and wrapURL; its request
    struct lacks retryCount and retryInterval, which this Do never reads,
    and its result is the revision with a status text. *)
Module Legacy.

(** const maxRetries = 3 *)
Definition maxRetries : nat := 3.

(** const retryInterval = 20 * time.Millisecond, in nanoseconds *)
Definition retryInterval : Z := 20 * 1000000.

Definition set_err (rt : ResultV1.result) (e : option error) : ResultV1.result :=
  ResultV1.mkResult (ResultV1.body rt) e (ResultV1.statusCode rt) (ResultV1.status rt).

Definition set_response (rt : ResultV1.result) (b : list Byte.byte) (resp : response)
  : ResultV1.result :=
  ResultV1.mkResult b (ResultV1.err rt) (resp_StatusCode resp) (resp_Status resp).

Section Do.
Context `{GoLib}.

(** The wire request of an iteration.  The result of req.WithContext is
    dropped, so the request keeps the context NewRequest gave it. *)
Definition wire (r : request) (req : wireRequest) : wireRequest :=
  req_SetBasicAuth (req_set_Header req (attemptHeader r)) (username r) (password r).

(** The loop of Do with [n] iterations left: the one result [rt] made
    before the loop, the configuration, the log, and the time spent in
    time.Sleep so far. *)
Fixpoint loop (n : nat) (client : Client) (rt : ResultV1.result) (r : request)
    (w : world) (slept : Z) : ResultV1.result * request * world * Z :=
  match n with
  | O => (set_err rt (Some (otherError "unexpected error")), r, w, slept)
  | S n' =>
      let '(r, url) := wrapURL r in
      match http_NewRequest (method r) (URL_String url) (body r) with
      | inr e => (set_err rt (Some e), r, w, slept)
      | inl req =>
          let req := wire r req in
          let answer := client w req in
          let w := w ++ [req] in
          match answer with
          | inr e =>
              if negb (isConnectionReset e) || negb (String.eqb (method r) MethodGet)
              then (set_err rt (Some e), r, w, slept)
              else loop n' client rt r w (slept + retryInterval)
          | inl resp =>
              match resp_Body resp with
              | Some (data, Some e) =>
                  match e with
                  | io_ErrUnexpectedEOF =>
                      loop n' client rt r w (slept + retryInterval)
                  | _ => (set_err rt (Some e), r, w, slept)
                  end
              | Some (data, None) => (set_response rt data resp, r, w, slept)
              | None => (set_response rt [] resp, r, w, slept)
              end
          end
      end
  end.

Definition Do (r : request) (w : world) : ResultV1.result * request * world * Z :=
  let rt := ResultV1.zero in
  match err r with
  | Some e => (set_err rt (Some e), r, w, 0)
  | None =>
      let client := default http_DefaultClient (client r) in
      loop maxRetries client rt r w 0
  end.

End Do.
End Legacy.

(* ===================================================================== *)
(** ** Further notions used in the statements *)
(* ===================================================================== *)

(** Whether a context is done: canceled itself, or derived from a context
    that is (context.WithTimeout of a canceled parent is canceled at once). *)
Fixpoint ctx_done (c : context) : bool :=
  match c with
  | ctxBackground => false
  | ctxCaller _ => false
  | ctxWithTimeout parent _ => ctx_done parent
  | ctxCanceled _ => true
  end.

(** The errors isConnectionReset accepts: ECONNRESET, optionally inside an
    *os.SyscallError, optionally inside a *net.OpError, optionally inside
    a *url.Error.  A layer is given by its text fields. *)
Definition resetError (inUrl inOp : option (string * string)) (inSyscall : option string)
  : error :=
  let e := syscall_Errno ECONNRESET in
  let e :=
    match inSyscall with
    | Some sc => os_SyscallError sc (Some e)
    | None => e
    end in
  let e :=
    match inOp with
    | Some (op, net) => net_OpError op net (Some e)
    | None => e
    end in
  match inUrl with
  | Some (op, url) => url_Error op url (Some e)
  | None => e
  end.

(** What ioutil.ReadAll returns for the body of a response: the error,
    and the bytes (none for a response without a body). *)
Definition readError (resp : response) : option error :=
  match resp_Body resp with
  | Some (_, e) => e
  | None => None
  end.

Definition bodyOf (resp : response) : list Byte.byte :=
  match resp_Body resp with
  | Some (data, _) => data
  | None => []
  end.

(** [n] slashes *)
Fixpoint slashes (n : nat) : string :=
  match n with
  | O => ""
  | S n' => String "/" (slashes n')
  end.

(** A wire request up to its context. *)
Definition sameButContext (a b : wireRequest) : Prop :=
  req_WithContext a ctxBackground = req_WithContext b ctxBackground.

(** The bytes of a query string: unreserved bytes, the escapes [+] and
    [%XX], and the separators [=] and [&]. *)
Definition queryByte (c : ascii) : bool :=
  is_alnum c || char_in c "-_.~+%=&".

(** Whether the earlier Do goes on to another iteration after the answer
    [a] of the client to a request of method [m]: a connection reset on
    a GET, or a body that breaks off with io.ErrUnexpectedEOF. *)
Definition retriedAnswer (m : string) (a : response + error) : bool :=
  match a with
  | inr e => isConnectionReset e && String.eqb m MethodGet
  | inl resp =>
      match resp_Body resp with
      | Some (_, Some io_ErrUnexpectedEOF) => true
      | _ => false
      end
  end.

(** The number of requests among [sent], dispatched one after the other
    from the log [w], whose answer is retried. *)
Fixpoint retriedAttempts (m : string) (client : Client) (w : world)
    (sent : list wireRequest) : nat :=
  match sent with
  | [] => 0
  | req :: rest =>
      ((if retriedAnswer m (client w req) then 1 else 0)
       + retriedAttempts m client (w ++ [req]) rest)%nat
  end.

(** The values of a key of a header map, none for a missing key. *)
Definition headerValues (h : gmap string (list string)) (k : string) : list string :=
  default [] (h !! k).

Section MoreNotions.
Context `{GoLib}.

(** The configuration after a sequence of builder calls. *)
Definition applyCalls (r : request) (calls : list builderCall) : request :=
  fold_left applyCall calls r.

(** The header of every wire request: the forced header with the
    credentials set over it. *)
Definition wireHeader (r : request) : gmap string (list string) :=
  Header.Set' (attemptHeader r) "Authorization"
    ("Basic " +:+ basicAuth (username r) (password r)).

(** A request dispatched for the configuration [r]: built by NewRequest
    from r's method, composed URL and body, with r's wire header. *)
Definition dispatchedFor (r : request) (req : wireRequest) : Prop :=
  ∃ req0,
    http_NewRequest (method r) (URL_String (wrapURL r).2) (body r) = inl req0
    ∧ req_Method req = req_Method req0 ∧ req_URL req = req_URL req0
    ∧ req_Body req = req_Body req0 ∧ req_Header req = wireHeader r.

(** r.ctx holds a context that is done. *)
Definition ctxDone (r : request) : Prop :=
  ∃ c, ctx r = Some c ∧ ctx_done c = true.

(** Every answer of the client is a response whose body breaks off with
    io.ErrUnexpectedEOF. *)
Definition always_truncated (c : Client) : Prop :=
  ∀ (w : world) (req : wireRequest),
    ∃ resp, c w req = inl resp ∧ readError resp = Some io_ErrUnexpectedEOF.

End MoreNotions.

(** A client whose first [k] round trips end in a connection reset and
    whose later ones answer 200 with the body [b]. *)
Definition flakyClient (k : nat) (b : string) : Client :=
  λ w req,
    if (length w <? k)%nat then inr (Sample.connReset req)
    else inl (mkResponse 200 "200 OK" (Some (Sample.bytes b, None))).

(** A client that answers with the given status and body. *)
Definition statusClient (code : Z) (status b : string) : Client :=
  λ _ _, inl (mkResponse code status (Some (Sample.bytes b, None))).

(** A client whose response bodies fail to read with a timeout. *)
Definition brokenBodyClient : Client :=
  λ _ _, inl (mkResponse 200 "200 OK"
                (Some (Sample.bytes "{", Some (otherError "read tcp: i/o timeout")))).

(** Further concrete configurations. *)
Definition getAnswer : @request Sample.lib :=
  WithMaxRetry (@Get Sample.lib (NewClient (Some (Sample.okClient "42")) exampleBase)) 2.

Definition getBrokenBody : @request Sample.lib :=
  WithMaxRetry (@Get Sample.lib (NewClient (Some brokenBodyClient) exampleBase)) 2.

Definition getFlaky : @request Sample.lib :=
  WithMaxRetry (@Get Sample.lib (NewClient (Some (flakyClient 2 "42")) exampleBase)) 2.

Definition getNegativeBound : @request Sample.lib :=
  WithMaxRetry (@Get Sample.lib (NewClient (Some Sample.resetClient) exampleBase)) (-1).

Definition getUserWithTimeout : @request Sample.lib :=
  WithTimeout getUser 5000000000.

Definition getNoContent : @request Sample.lib :=
  @Get Sample.lib (NewClient (Some (statusClient 204 "204 No Content" "")) exampleBase).

Definition getNotFound : @request Sample.lib :=
  @Get Sample.lib (NewClient (Some (statusClient 404 "404 Not Found" "{}")) exampleBase).

Definition okResponse (b : string) : response :=
  mkResponse 200 "200 OK" (Some (Sample.bytes b, None)).

(** A request whose method is not a token, made with the unexported
    factory method. *)
Definition badMethod : @request Sample.lib :=
  WithMaxRetry
    (rc_method (NewClient (Some (Sample.okClient "42")) exampleBase) "GET /") 2.

(** GET with credentials set on the client and builder calls after it. *)
Definition getWithCredentials : @request Sample.lib :=
  applyCalls
    (rc_method (SetBasicAuth (NewClient (Some (Sample.okClient "42")) exampleBase)
                  "Aladdin" "open sesame") MethodGet)
    [CallWithParam "limit" "10"; CallWithMaxRetry 1].

(** GET through a base URL whose host ends in an empty port. *)
Definition getEmptyPort : @request Sample.lib :=
  @Get Sample.lib (NewClient (Some (Sample.okClient "42")) "http://example.com:").

(* ===================================================================== *)
(** ** Checks of the library functions *)
(* ===================================================================== *)

Example removeEmptyPort_samples :
  map removeEmptyPort
    ["example.com:"; "example.com:80"; "example.com"; "[::1]:"; "[::1]"; ""]
  = ["example.com"; "example.com:80"; "example.com"; "[::1]"; "[::1]"; ""].
Proof. reflexivity. Qed.

Example basicAuth_empty : basicAuth "" "" = "Og==".
Proof. reflexivity. Qed.

Example basicAuth_sample : basicAuth "Aladdin" "open sesame" = "QWxhZGRpbjpvcGVuIHNlc2FtZQ==".
Proof. reflexivity. Qed.

Example canonical_sample :
  Header.CanonicalMIMEHeaderKey "accept-encoding" = "Accept-Encoding".
Proof. reflexivity. Qed.

Example encode_sample :
  Values.Encode (Values.Add (Values.Add (Values.Add ∅ "limit" "10") "a b" "x/y") "limit" "20")
  = "a+b=x%2Fy&limit=10&limit=20".
Proof. vm_compute. reflexivity. Qed.

(* ===================================================================== *)
(** ** Properties of Result *)
(* ===================================================================== *)

(** The assignment in StatusCode rebinds the parameter to the address of
    the receiver's field. *)
Lemma StatusCode_local_rebound (r : ResultV2.result) (p : ResultV2.intptr)
    (mem : gmap nat Z) :
  (ResultV2.StatusCode r (Some p) mem).2 = Some ResultV2.FieldStatusCode.
Proof. reflexivity. Qed.

(** C9.  StatusCode called with a non-nil pointer [p] returns the receiver
    as it was and leaves the store of int cells as it was: what [p] points
    to reads the same before and after the call, whatever status code the
    result holds. *)
Theorem StatusCode_frame (r : ResultV2.result) (p : ResultV2.intptr)
    (mem : gmap nat Z) :
  let '(r', mem', _) := ResultV2.StatusCode r (Some p) mem in
  r' = r ∧ mem' = mem ∧ ResultV2.deref r' mem' p = ResultV2.deref r mem p.
Proof. cbn. auto. Qed.

Example StatusCode_not_copied :
  let r := ResultV2.mkResult [] None 404 in
  let mem : gmap nat Z := {[ 0%nat := 0 ]} in
  let '(_, mem', _) := ResultV2.StatusCode r (Some (ResultV2.Cell 0)) mem in
  mem' !! 0%nat = Some 0.
Proof. reflexivity. Qed.

Section ResultProperties.
Context `{GoLib}.

Lemma IntoV1_result_unchanged (r : ResultV1.result) (obj : option Any) :
  (ResultV1.Into r obj).1.1 = r.
Proof.
  unfold ResultV1.Into.
  destruct (ResultV1.err r); [reflexivity|].
  destruct (negb _); [reflexivity|].
  destruct obj as [o|]; [|reflexivity].
  destruct (json_Decode _ o) as [o' [e|]]; reflexivity.
Qed.

Lemma IntoV2_result_unchanged (r : ResultV2.result) (obj : option Any) :
  (ResultV2.Into r obj).1.1 = r.
Proof.
  unfold ResultV2.Into.
  destruct (ResultV2.err r); [reflexivity|].
  destruct obj as [o|]; [|reflexivity].
  destruct (bool_decide _); [reflexivity|].
  destruct (json_Decode _ o) as [o' [e|]]; reflexivity.
Qed.

(** C4, as amended.  Both revisions of Into return a stored error as it
    is, for every target, body and status.  With no stored error and a nil
    target the second revision returns nil whatever the body and status
    are; the first revision does so when the status code is 200 and
    returns its status error otherwise.  The target is not touched. *)
Theorem Into_error_and_nil_target
    (b : list Byte.byte) (c : Z) (s : string) (e : error) (obj : option Any) :
  ResultV1.Into (ResultV1.mkResult b (Some e) c s) obj
    = (ResultV1.mkResult b (Some e) c s, obj, Some e)
  ∧ ResultV2.Into (ResultV2.mkResult b (Some e) c) obj
    = (ResultV2.mkResult b (Some e) c, obj, Some e)
  ∧ ResultV2.Into (ResultV2.mkResult b None c) None
    = (ResultV2.mkResult b None c, None, None)
  ∧ ResultV1.Into (ResultV1.mkResult b None c s) None
    = (ResultV1.mkResult b None c s, None,
       if bool_decide (c = StatusOK) then None
       else Some (otherError ("http response with status: " +:+ s))).
Proof.
  repeat split; try reflexivity.
  unfold ResultV1.Into; cbn.
  case_bool_decide as Hc.
  - subst c. reflexivity.
  - destruct (Z.eqb_spec c StatusOK); [contradiction|reflexivity].
Qed.

(** C8.  Calling Into twice in a row on the same result with the same
    target returns the same error (or nil) both times, in both revisions:
    the call leaves the result as it was, and each call decodes the stored
    bytes from their start. *)
Theorem Into_twice_same_outcome (Hdec : decode_stable)
    (r1 : ResultV1.result) (r2 : ResultV2.result) (obj : option Any) :
  (let '(r1', obj', e) := ResultV1.Into r1 obj in
   let '(r1'', _, e') := ResultV1.Into r1' obj' in
   r1' = r1 ∧ r1'' = r1 ∧ e' = e)
  ∧
  (let '(r2', obj', e) := ResultV2.Into r2 obj in
   let '(r2'', _, e') := ResultV2.Into r2' obj' in
   r2' = r2 ∧ r2'' = r2 ∧ e' = e).
Proof.
  split.
  - unfold ResultV1.Into.
    destruct (ResultV1.err r1) as [e|] eqn:He.
    { rewrite He. auto. }
    destruct (negb (ResultV1.statusCode r1 =? StatusOK)) eqn:Hs.
    { rewrite He, Hs. auto. }
    destruct obj as [o|].
    + pose proof (Hdec (ResultV1.body r1) o) as Hst.
      destruct (json_Decode (ResultV1.body r1) o) as [o' e] eqn:Hd1.
      cbn in Hst.
      destruct (json_Decode (ResultV1.body r1) o') as [o'' e'] eqn:Hd2.
      cbn in Hst. subst e'.
      destruct e as [e|]; rewrite He, Hs, Hd2; auto.
    + rewrite He, Hs. auto.
  - unfold ResultV2.Into.
    destruct (ResultV2.err r2) as [e|] eqn:He.
    { rewrite He. auto. }
    destruct obj as [o|].
    + destruct (bool_decide (length (ResultV2.body r2) = 0%nat)) eqn:Hb.
      { rewrite He, Hb. auto. }
      pose proof (Hdec (ResultV2.body r2) o) as Hst.
      destruct (json_Decode (ResultV2.body r2) o) as [o' e] eqn:Hd1.
      cbn in Hst.
      destruct (json_Decode (ResultV2.body r2) o') as [o'' e'] eqn:Hd2.
      cbn in Hst. subst e'.
      destruct e as [e|]; rewrite He, Hb, Hd2; auto.
    + rewrite He. auto.
Qed.

End ResultProperties.

(* ===================================================================== *)
(** ** Properties of one attempt *)
(* ===================================================================== *)

Section AttemptProperties.
Context `{GoLib}.

Lemma same_config_refl r : same_config r r.
Proof. destruct r; reflexivity. Qed.

Lemma same_config_set_err r r' x : same_config r r' → same_config r (set_err r' x).
Proof. unfold same_config. intros ->. destruct r; reflexivity. Qed.

Lemma same_config_set_ctx r r' x : same_config r r' → same_config r (set_ctx r' x).
Proof. unfold same_config. intros ->. destruct r; reflexivity. Qed.

Lemma same_config_trans r1 r2 r3 :
  same_config r1 r2 → same_config r2 r3 → same_config r1 r3.
Proof. unfold same_config. intros -> ->. destruct r1; reflexivity. Qed.

Lemma same_config_fields r r' :
  same_config r r' →
  method r' = method r ∧ client r' = client r ∧ body r' = body r ∧
  retryCount r' = retryCount r ∧ timeout r' = timeout r ∧
  username r' = username r ∧ password r' = password r ∧
  header r' = header r ∧ params r' = params r ∧ baseURL r' = baseURL r.
Proof. unfold same_config. intros ->. destruct r; cbn. repeat split. Qed.

Lemma wrapURL_parsed (r : request) (u : URL) :
  parsedBase r = inl u →
  (wrapURL r).1 = r ∧ RawQuery (wrapURL r).2 = Values.Encode (wrapQuery r).
Proof.
  unfold parsedBase, wrapURL. intros ->.
  destruct (0 <? length (subPathArgs r))%nat; split; reflexivity.
Qed.

Lemma wrapURL_failed (r : request) (e : error) :
  parsedBase r = inr e → wrapURL r = (set_err r (Some e), zeroURL).
Proof. unfold parsedBase, wrapURL. intros ->. reflexivity. Qed.

Lemma wrapURL_config (r : request) : same_config r (wrapURL r).1.
Proof.
  destruct (parsedBase r) as [u|e] eqn:Hp.
  - apply wrapURL_parsed in Hp as [-> _]. apply same_config_refl.
  - rewrite (wrapURL_failed _ _ Hp). apply same_config_set_err, same_config_refl.
Qed.

Lemma wrapURL_snd_config (r r' : request) :
  same_config r r' → (wrapURL r').2 = (wrapURL r).2.
Proof.
  unfold same_config. intros ->. unfold wrapURL, wrapQuery.
  destruct r; cbn [baseURL subPathArgs subPath params timeout set_ctx set_err].
  destruct (negb _); [destruct (url_Parse _)|]; reflexivity.
Qed.

Lemma afterAttempt_config r : same_config r (afterAttempt r).
Proof.
  unfold afterAttempt. destruct (0 <? timeout r).
  - apply same_config_set_ctx, same_config_refl.
  - apply same_config_refl.
Qed.

(** tryOnce in two cases: the wire request cannot be built and nothing is
    sent, or exactly one request is sent and its answer classified. *)
Lemma tryOnce_spec (r : request) (w : world) :
  let r1 := (wrapURL r).1 in
  match http_NewRequest (method r) (URL_String (wrapURL r).2) (body r) with
  | inr e => tryOnce r w = ((ResultV2.mkResult [] (Some e) 0, false), r1, w)
  | inl req0 =>
      let req := dressed r1 req0 in
      tryOnce r w =
        (classify (method r) (default http_DefaultClient (client r) w req),
         afterAttempt r1, w ++ [req])
  end.
Proof.
  pose proof (same_config_fields _ _ (wrapURL_config r)) as (Hm & Hc & Hb & _).
  unfold tryOnce. destruct (wrapURL r) as [r1 url] eqn:Hw. cbn [fst snd] in *.
  rewrite Hm, Hb.
  destruct (http_NewRequest (method r) (URL_String url) (body r)) as [req0|e];
    [|reflexivity].
  unfold dressed, afterAttempt, classify. rewrite <- Hm, <- Hc.
  destruct (0 <? timeout r1) eqn:Ht; cbn [ctx set_ctx timeout client method username password option_map].
  - rewrite Ht. cbn [ctx set_ctx timeout client method username password option_map].
    destruct (default http_DefaultClient (client r1) w _) as [resp|e].
    + destruct (resp_Body resp) as [[data [[]|]]|]; reflexivity.
    + destruct (negb (isConnectionReset e) || negb (String.eqb (method r1) MethodGet));
        reflexivity.
  - rewrite Ht.
    destruct (ctx r1) as [c|];
      (destruct (default http_DefaultClient (client r1) w _) as [resp|e];
       [ destruct (resp_Body resp) as [[data [[]|]]|]; reflexivity
       | destruct (negb (isConnectionReset e) || negb (String.eqb (method r1) MethodGet));
         reflexivity ]).
Qed.

End AttemptProperties.

(** Case analysis on an attempt: [Hs] is the equation of [tryOnce r w]. *)
Ltac attempt_cases r w Hs :=
  pose proof (tryOnce_spec r w) as Hs; cbv zeta in Hs.

(* ===================================================================== *)
(** ** Properties of the retry loop *)
(* ===================================================================== *)

Section RetryProperties.
Context `{GoLib}.

Lemma buildable_config r r' : same_config r r' → buildable r → buildable r'.
Proof.
  intros Hc [req0 Hb]. exists req0.
  pose proof (same_config_fields _ _ Hc) as (-> & _ & -> & _).
  by rewrite (wrapURL_snd_config _ _ Hc).
Qed.

Lemma tryOnce_config r w : same_config r (tryOnce r w).1.2.
Proof.
  attempt_cases r w Hs.
  destruct (http_NewRequest _ _ _); rewrite Hs; cbn [fst snd].
  - eapply same_config_trans; [apply wrapURL_config|apply afterAttempt_config].
  - apply wrapURL_config.
Qed.

Lemma tryOnce_log r w :
  ∃ sent, (tryOnce r w).2 = w ++ sent ∧ (length sent ≤ 1)%nat.
Proof.
  attempt_cases r w Hs.
  destruct (http_NewRequest _ _ _); rewrite Hs; cbn [fst snd].
  - eexists [_]. split; [reflexivity|cbn; lia].
  - exists []. split; [by rewrite app_nil_r|cbn; lia].
Qed.

Lemma retryLoop_log n : ∀ rt r w,
  ∃ sent, (retryLoop n rt r w).2 = w ++ sent ∧ (length sent ≤ n)%nat.
Proof.
  induction n as [|n IH]; intros rt r w; cbn [retryLoop].
  - exists []. split; [by rewrite app_nil_r|cbn; lia].
  - destruct (tryOnce_log r w) as (s1 & Hw1 & Hl1).
    destruct (tryOnce r w) as [[[rt1 retry] r1] w1]. cbn [snd] in Hw1. subst w1.
    destruct retry; cbn [negb].
    + destruct (IH rt1 r1 (w ++ s1)) as (s2 & -> & Hl2).
      exists (s1 ++ s2). rewrite app_assoc, length_app. split; [done|lia].
    + exists s1. cbn [snd]. split; [done|lia].
Qed.

Lemma Do_log r w :
  ∃ sent, (Do r w).2 = w ++ sent ∧ (length sent ≤ 1 + Z.to_nat (retryCount r))%nat.
Proof.
  unfold Do. destruct (err r).
  { exists []. cbn. split; [by rewrite app_nil_r|lia]. }
  destruct (tryOnce_log r w) as (s1 & Hw1 & Hl1).
  pose proof (same_config_fields _ _ (tryOnce_config r w)) as (_ & _ & _ & Hrc & _).
  destruct (tryOnce r w) as [[[rt1 retry] r1] w1]. cbn [fst snd] in *. subst w1.
  destruct retry; cbn [negb].
  - destruct (retryLoop_log (Z.to_nat (retryCount r1)) rt1 r1 (w ++ s1)) as (s2 & -> & Hl2).
    exists (s1 ++ s2). rewrite app_assoc, length_app, <- Hrc. split; [done|lia].
  - exists s1. cbn [snd]. split; [done|lia].
Qed.

(** With the error field set, Do returns it in a fresh result and touches
    neither the configuration nor the transport. *)
Lemma Do_short_circuit r w e :
  err r = Some e → Do r w = (ResultV2.mkResult [] (Some e) 0, r, w).
Proof. unfold Do. intros ->. reflexivity. Qed.

Lemma tryOnce_reset r w :
  method r = MethodGet → buildable r → always_reset (effectiveClient r) →
  ∃ req, tryOnce r w = ((ResultV2.zero, true), afterAttempt (wrapURL r).1, w ++ [req]).
Proof.
  intros Hm [req0 Hb] Hreset.
  attempt_cases r w Hs. rewrite Hb in Hs.
  eexists. rewrite Hs. fold (effectiveClient r).
  destruct (Hreset w (dressed (wrapURL r).1 req0)) as (e & -> & He).
  unfold classify. rewrite He, Hm. reflexivity.
Qed.

Lemma retryLoop_reset n : ∀ r w,
  method r = MethodGet → buildable r → always_reset (effectiveClient r) →
  ∃ r' w', retryLoop n ResultV2.zero r w = (exhausted, r', w')
           ∧ length w' = (length w + n)%nat.
Proof.
  induction n as [|n IH]; intros r w Hm Hb Hreset; cbn [retryLoop].
  - exists r, w. split; [reflexivity|lia].
  - destruct (tryOnce_reset r w Hm Hb Hreset) as [req Ht].
    pose proof (tryOnce_config r w) as Hc. rewrite Ht in *. cbn [fst snd negb] in *.
    pose proof (same_config_fields _ _ Hc) as (Hm' & Hcl & _).
    destruct (IH (afterAttempt (wrapURL r).1) (w ++ [req])) as (r' & w' & -> & Hl).
    + by rewrite Hm'.
    + by eapply buildable_config.
    + unfold effectiveClient in *. by rewrite Hcl.
    + exists r', w'. split; [reflexivity|]. rewrite Hl, length_app. cbn. lia.
Qed.

(** C1.  With a non-negative retry bound, no run of Do calls the client
    more than retryCount + 1 times.  For a GET configuration without a
    construction error whose wire request can be built, if every round
    trip ends in a connection reset, Do calls the client exactly
    retryCount + 1 times and returns the result carrying the error
    "unexpected error". *)
Theorem Do_GET_reset_exhausts (r : request) (w : world) :
  0 ≤ retryCount r →
  invocations w (Do r w).2 ≤ retryCount r + 1
  ∧ (method r = MethodGet → err r = None → buildable r →
     always_reset (effectiveClient r) →
     invocations w (Do r w).2 = retryCount r + 1 ∧ (Do r w).1.1 = exhausted).
Proof.
  intros Hrc. split.
  - destruct (Do_log r w) as (sent & -> & Hl).
    unfold invocations. rewrite length_app. lia.
  - intros Hm He Hb Hreset. unfold Do. rewrite He.
    destruct (tryOnce_reset r w Hm Hb Hreset) as [req Ht].
    pose proof (tryOnce_config r w) as Hc. rewrite Ht in *. cbn [fst snd negb] in *.
    pose proof (same_config_fields _ _ Hc) as (Hm' & Hcl & _ & Hrc' & _).
    destruct (retryLoop_reset (Z.to_nat (retryCount (afterAttempt (wrapURL r).1)))
                (afterAttempt (wrapURL r).1) (w ++ [req])) as (r' & w' & -> & Hl).
    + by rewrite Hm'.
    + by eapply buildable_config.
    + unfold effectiveClient in *. by rewrite Hcl.
    + cbn [fst snd]. split; [|reflexivity].
      unfold invocations. rewrite Hl, length_app, Hrc'. cbn. lia.
Qed.

(** A transport failure of a request that is not a GET ends the run: the
    client is called once and its error is returned, a connection reset
    like any other. *)
Theorem Do_nonGET_transport_error_fatal (r : request) (w : world) :
  method r ≠ MethodGet → err r = None → buildable r →
  (∀ req, ∃ e, effectiveClient r w req = inr e) →
  ∃ req e, effectiveClient r w req = inr e
           ∧ (Do r w).1.1 = ResultV2.mkResult [] (Some e) 0
           ∧ (Do r w).2 = w ++ [req].
Proof.
  intros Hm He [req0 Hb] Hfail.
  attempt_cases r w Hs. rewrite Hb in Hs.
  destruct (Hfail (dressed (wrapURL r).1 req0)) as [e Hans].
  exists (dressed (wrapURL r).1 req0), e. split; [done|].
  unfold Do. rewrite He, Hs. fold (effectiveClient r). rewrite Hans.
  unfold classify.
  destruct (String.eqb_spec (method r) MethodGet) as [Heq|_]; [contradiction|].
  rewrite orb_true_r. cbn. done.
Qed.

Lemma parsedBase_config r r' : same_config r r' → parsedBase r' = parsedBase r.
Proof.
  intros Hc. pose proof (same_config_fields _ _ Hc) as (_&_&_&_&_&_&_&_&_&Hb).
  unfold parsedBase. by rewrite Hb.
Qed.

Lemma tryOnce_records_parse_error r w e :
  parsedBase r = inr e → err (tryOnce r w).1.2 = Some e.
Proof.
  intros Hp. attempt_cases r w Hs.
  rewrite (wrapURL_failed _ _ Hp) in Hs. cbn [fst snd] in Hs.
  destruct (http_NewRequest _ _ _); rewrite Hs; cbn [fst snd]; [|done].
  unfold afterAttempt. by destruct (0 <? _).
Qed.

Lemma retryLoop_keeps_parse_error n : ∀ rt r w e,
  parsedBase r = inr e → err r = Some e → err (retryLoop n rt r w).1.2 = Some e.
Proof.
  induction n as [|n IH]; intros rt r w e Hp He; cbn [retryLoop]; [done|].
  pose proof (tryOnce_records_parse_error r w e Hp) as He1.
  pose proof (parsedBase_config _ _ (tryOnce_config r w)) as Hp1.
  destruct (tryOnce r w) as [[[rt1 retry] r1] w1]. cbn [fst snd] in *.
  destruct retry; cbn [negb fst snd]; [|done].
  apply IH; [by rewrite Hp1|done].
Qed.

(** C3, what the code does.  When the base URL does not parse and
    http.NewRequest accepts the zero URL that wrapURL hands back, the
    first Do calls the client with a wire request for that zero URL; the
    parse error is only recorded in the configuration, and it is the next
    Do that returns it without calling the client. *)
Theorem Do_unparsed_baseURL_reaches_transport
    (r : request) (w : world) (e : error) (req0 : wireRequest) :
  err r = None →
  parsedBase r = inr e →
  http_NewRequest (method r) (URL_String zeroURL) (body r) = inl req0 →
  let '(rt, r', w') := Do r w in
  (∃ rest, w' = w ++ dressed (set_err r (Some e)) req0 :: rest)
  ∧ req_URL (dressed (set_err r (Some e)) req0) = req_URL req0
  ∧ err r' = Some e
  ∧ Do r' w' = (ResultV2.mkResult [] (Some e) 0, r', w').
Proof.
  intros He Hp Hb.
  attempt_cases r w Hs.
  rewrite (wrapURL_failed _ _ Hp) in Hs. cbn [fst snd] in Hs. rewrite Hb in Hs.
  pose proof (tryOnce_records_parse_error r w e Hp) as He1.
  pose proof (parsedBase_config _ _ (tryOnce_config r w)) as Hp1.
  unfold Do at 1. rewrite He.
  destruct (tryOnce r w) as [[[rt1 retry] r1] w1]. cbn [fst snd] in *.
  injection Hs as _ _ Hw1. subst w1.
  assert (Hurl : req_URL (dressed (set_err r (Some e)) req0) = req_URL req0).
  { unfold dressed. destruct (0 <? _); [reflexivity|]. by destruct (ctx _). }
  destruct retry; cbn [negb].
  - pose proof (retryLoop_keeps_parse_error (Z.to_nat (retryCount r1)) rt1 r1
                  (w ++ [dressed (set_err r (Some e)) req0]) e) as Hk.
    destruct (retryLoop_log (Z.to_nat (retryCount r1)) rt1 r1
                (w ++ [dressed (set_err r (Some e)) req0])) as (s2 & Hw2 & _).
    destruct (retryLoop _ rt1 r1 _) as [[rt2 r2] w2]. cbn [fst snd] in *.
    subst w2. rewrite Hp1 in Hk. specialize (Hk Hp He1).
    split; [|split; [done|split; [done|by apply Do_short_circuit]]].
    exists s2. by rewrite <- app_assoc.
  - split; [|split; [done|split; [done|by apply Do_short_circuit]]].
    by exists [].
Qed.

End RetryProperties.

(* ===================================================================== *)
(** ** Properties of the builder *)
(* ===================================================================== *)

Section BuilderProperties.
Context `{GoLib}.

Lemma applyCall_err (r : request) (c : builderCall) :
  err (applyCall r c) = err r
  ∨ ∃ v e', c = CallBody (Some v) ∧ json_Marshal v = inr e'
            ∧ err (applyCall r c) = Some e'.
Proof.
  destruct c as [| | h | | | | | |[v|]]; cbn [applyCall]; try (left; reflexivity).
  - left. unfold WithHeader. by destruct (header r).
  - unfold Body. destruct (json_Marshal v) as [data|e'] eqn:Hm.
    + left. reflexivity.
    + right. by exists v, e'.
Qed.

Lemma applyCall_err_kept (r : request) (c : builderCall) :
  failingBody (Build c) = false → err (applyCall r c) = err r.
Proof.
  destruct (applyCall_err r c) as [|(v & e' & -> & Hm & _)]; [done|].
  cbn. by rewrite Hm.
Qed.

(** A Body call whose value does not serialize records the error and
    substitutes an empty body. *)
Lemma Body_failure (r : request) (v : Any) (e : error) :
  json_Marshal v = inr e →
  err (Body r (Some v)) = Some e ∧ body (Body r (Some v)) = [].
Proof. unfold Body. intros ->. split; reflexivity. Qed.

(** C5, as amended.  A Body call that fails to serialize sets r.err and
    an empty body.  Once r.err is set, no sequence of builder calls and
    Do calls unsets it or reaches the client, and no Do changes the
    configuration: the configuration at the end is the one the builder
    calls alone give.  Every Do returns, in a fresh result, the error the
    field holds when it is called.  That is the error first set as long
    as no later Body call fails to serialize its value (such a call
    stores its own error in the field). *)
Theorem err_set_short_circuits (steps : list step) (r : request) (w : world)
    (e : error) :
  err r = Some e →
  (∀ r0 v e0, json_Marshal v = inr e0 →
     err (Body r0 (Some v)) = Some e0 ∧ body (Body r0 (Some v)) = [])
  ∧ let '(rts, r', w') := run steps r w in
    w' = w ∧ r' = configuredBy steps r
    ∧ is_Some (err r') ∧ Forall shortCircuited rts
    ∧ (forallb (λ s, negb (failingBody s)) steps = true →
       err r' = Some e ∧ Forall (λ x, x.1 = ResultV2.mkResult [] (Some e) 0) rts).
Proof.
  intros He0. split; [intros; by apply Body_failure|]. revert He0.
  revert r e.
  induction steps as [|[c|] steps IH]; intros r e He; cbn [run configuredBy].
  - rewrite He. do 2 (split; [done|]). split; [by eexists|].
    split; [constructor|]. intros _. split; [done|constructor].
  - destruct (applyCall_err r c) as [Hk|(v & e' & -> & Hm & He')].
    + rewrite He in Hk. specialize (IH _ _ Hk).
      destruct (run steps (applyCall r c) w) as [[rts r'] w'].
      destruct IH as (? & ? & ? & ? & IH). do 4 (split; [done|]).
      intros [_ Hrest]%andb_true_iff. by apply IH.
    + specialize (IH _ _ He').
      destruct (run steps _ w) as [[rts r'] w'].
      destruct IH as (? & ? & ? & ? & _). do 4 (split; [done|]).
      intros [Hc _]%andb_true_iff. cbn in Hc. by rewrite Hm in Hc.
  - rewrite (Do_short_circuit r w e He). specialize (IH _ _ He).
    destruct (run steps r w) as [[rts r'] w'].
    destruct IH as (? & ? & ? & ? & IH). do 3 (split; [done|]). split.
    + constructor; [|done]. rewrite He. by split.
    + intros Hrest. destruct (IH Hrest). split; [done|]. by constructor.
Qed.

(** C6, as amended.  Every wire request an attempt dispatches carries the
    Authorization header "Basic " + base64(username:password), whatever
    the configured credentials are, empty ones included. *)
Theorem tryOnce_always_sets_basic_auth (r : request) (w : world) :
  ∃ sent, (tryOnce r w).2 = w ++ sent ∧ (length sent ≤ 1)%nat
    ∧ ∀ req, req ∈ sent →
        Header.lookup (req_Header req) "Authorization"
        = Some ["Basic " +:+ basicAuth (username r) (password r)].
Proof.
  attempt_cases r w Hs.
  pose proof (same_config_fields _ _ (wrapURL_config r)) as (_&_&_&_&_& Hu & Hp &_).
  destruct (http_NewRequest _ _ _) as [req0|e]; rewrite Hs; cbn [fst snd].
  - eexists [_]. split; [reflexivity|]. split; [cbn; lia|].
    intros req ->%list_elem_of_singleton.
    unfold dressed, req_SetBasicAuth, Header.lookup, Header.Set'.
    cbn [req_Header req_set_Header]. rewrite Hu, Hp. apply lookup_insert_eq.
  - exists []. split; [by rewrite app_nil_r|]. split; [cbn; lia|].
    intros req Hin. by apply not_elem_of_nil in Hin.
Qed.

End BuilderProperties.

(* ===================================================================== *)
(** ** Properties of URL composition *)
(* ===================================================================== *)

Lemma append_assoc (a b c : string) : (a +:+ b) +:+ c = a +:+ b +:+ c.
Proof.
  induction a as [|x a IH]; [done|].
  change (String x ((a +:+ b) +:+ c) = String x (a +:+ b +:+ c)). by f_equal.
Qed.

Lemma append_nil_r (a : string) : a +:+ "" = a.
Proof.
  induction a as [|x a IH]; [done|].
  change (String x (a +:+ "") = String x a). by f_equal.
Qed.

Lemma join_contains (sep x : string) (l : list string) :
  x ∈ l → contains (join sep l) x.
Proof.
  induction l as [|y l IH]; [by intros ?%not_elem_of_nil|].
  intros [->|Hin]%elem_of_cons.
  - destruct l as [|z l].
    + exists "", "". cbn. by rewrite append_nil_r.
    + exists "", (sep +:+ join sep (z :: l)). reflexivity.
  - destruct (IH Hin) as (pre & post & Hj).
    destruct l as [|z l]; [by apply not_elem_of_nil in Hin|].
    exists (y +:+ sep +:+ pre), post.
    change (join sep (y :: z :: l)) with (y +:+ sep +:+ join sep (z :: l)).
    by rewrite Hj, !append_assoc.
Qed.

Lemma index_insert (v : gmap string (list string)) (k k' : string) (l : list string) :
  Values.index (<[k' := l]> v) k = if decide (k = k') then l else Values.index v k.
Proof.
  unfold Values.index. destruct (decide (k = k')) as [->|Hne].
  - by rewrite lookup_insert_eq.
  - by rewrite lookup_insert_ne.
Qed.

Lemma index_fold_Add (key k : string) (values : list string) :
  ∀ q : gmap string (list string),
    Values.index (fold_left (λ q v, Values.Add q key v) values q) k
    = if decide (k = key) then Values.index q k ++ values else Values.index q k.
Proof.
  induction values as [|v values IH]; intros q; cbn [fold_left].
  - destruct (decide _); [by rewrite app_nil_r|done].
  - rewrite IH. unfold Values.Add. rewrite index_insert.
    destruct (decide (k = key)) as [->|]; [|done].
    by rewrite <- app_assoc.
Qed.

(** The copy loop of wrapURL yields a map with the same values per key. *)
Lemma index_copy (m : gmap string (list string)) (k : string) :
  Values.index
    (map_fold (λ key values query,
                 fold_left (λ query value, Values.Add query key value) values query)
       ∅ m) k
  = Values.index m k.
Proof.
  apply (map_fold_weak_ind (λ q m, Values.index q k = Values.index m k)); [done|].
  clear m. intros key values m q Hfresh IH.
  rewrite index_fold_Add, index_insert.
  destruct (decide (k = key)) as [->|]; [|done].
  rewrite IH. unfold Values.index. by rewrite Hfresh.
Qed.

Lemma sortedKeys_elem (v : gmap string (list string)) (k : string) :
  k ∈ Values.sortedKeys v ↔ is_Some (v !! k).
Proof.
  unfold Values.sortedKeys. rewrite merge_sort_Permutation, list_elem_of_fmap.
  split.
  - intros ([k' l] & -> & Hin%elem_of_map_to_list). by exists l.
  - intros [l Hl]. exists (k, l). split; [done|by apply elem_of_map_to_list].
Qed.

Lemma sortedKeys_NoDup (v : gmap string (list string)) : NoDup (Values.sortedKeys v).
Proof.
  unfold Values.sortedKeys. rewrite merge_sort_Permutation.
  apply NoDup_fst_map_to_list.
Qed.

Lemma filter_key_fmap (k k' : string) (l : list string) :
  filter (λ p : string * string, p.1 = k) ((λ x, (k', x)) <$> l)
  = if decide (k' = k) then (λ x, (k', x)) <$> l else [].
Proof.
  induction l as [|x l IH]; cbn [fmap list_fmap]; [by destruct (decide _)|].
  rewrite filter_cons, IH. cbn [fst].
  by destruct (decide (k' = k)).
Qed.

(** Encode writes, for a key, exactly the values the map holds for it,
    in their order. *)
Lemma pairsFor_index (k : string) (v : gmap string (list string)) :
  Values.pairsFor k v = (λ x, (k, x)) <$> Values.index v k.
Proof.
  unfold Values.pairsFor, Values.pairs.
  pose proof (sortedKeys_NoDup v) as Hnd.
  pose proof (sortedKeys_elem v k) as Hel.
  assert (Hgen : ∀ ks, NoDup ks →
    filter (λ p : string * string, p.1 = k) (ks ≫= λ k', (λ x, (k', x)) <$> Values.index v k')
    = if decide (k ∈ ks) then (λ x, (k, x)) <$> Values.index v k else []).
  { induction ks as [|k' ks IH]; intros Hks.
    - by destruct (decide _) as [?%not_elem_of_nil|].
    - apply NoDup_cons in Hks as [Hk' Hks].
      rewrite bind_cons, filter_app, filter_key_fmap, (IH Hks).
      destruct (decide (k' = k)) as [->|Hne].
      + destruct (decide (k ∈ ks)); [done|].
        destruct (decide (k ∈ k :: ks)) as [|Hn]; [by rewrite app_nil_r|].
        exfalso. apply Hn. by left.
      + destruct (decide (k ∈ ks)) as [Hin|Hnin].
        * destruct (decide (k ∈ k' :: ks)) as [|Hn]; [done|].
          exfalso. apply Hn. by right.
        * destruct (decide (k ∈ k' :: ks)) as [[|]%elem_of_cons|]; done. }
  rewrite (Hgen _ Hnd).
  destruct (decide (k ∈ Values.sortedKeys v)) as [|Hn]; [done|].
  unfold Values.index. destruct (v !! k) eqn:Hk; [|done].
  exfalso. apply Hn, Hel. by eexists.
Qed.

Lemma Encode_contains (v : gmap string (list string)) (k x : string) :
  x ∈ Values.index v k → contains (Values.Encode v) (Values.renderPair (k, x)).
Proof.
  intros Hx. apply join_contains, list_elem_of_fmap_2.
  assert (Hin : (k, x) ∈ Values.pairsFor k v).
  { rewrite pairsFor_index. by apply list_elem_of_fmap_2. }
  unfold Values.pairsFor in Hin. by apply list_elem_of_filter in Hin as [_ ?].
Qed.

Section CompositionProperties.
Context `{GoLib}.

Lemma WithParam_index (r : request) (name value k : string) :
  Values.index (paramsOf (WithParam r name value)) k
  = if decide (k = name) then Values.index (paramsOf r) k ++ [value]
    else Values.index (paramsOf r) k.
Proof.
  unfold WithParam, paramsOf. cbn [params set_params default from_option id].
  rewrite index_insert. by destruct (decide (k = name)) as [->|].
Qed.

Lemma wrapQuery_index (r : request) (k : string) :
  Values.index (wrapQuery r) k
  = if decide (timeout r ≠ 0 ∧ k = "timeout") then [Duration_String (timeout r)]
    else Values.index (paramsOf r) k.
Proof.
  unfold wrapQuery, paramsOf.
  destruct (Z.eqb_spec (timeout r) 0) as [Ht|Ht]; cbn [negb].
  - rewrite index_copy. destruct (decide _) as [[? _]|]; done.
  - unfold Values.Set'. rewrite index_insert, index_copy.
    destruct (decide (k = "timeout")) as [->|Hk].
    + destruct (decide _) as [|Hn]; [done|]. exfalso. by apply Hn.
    + destruct (decide _) as [[_ ?]|]; done.
Qed.

Lemma parsedBase_WithParam (r : request) (name value : string) :
  parsedBase (WithParam r name value) = parsedBase r.
Proof. reflexivity. Qed.

(** C7.  WithParam appends: the values of the named parameter are the old
    ones followed by the new one, and no other parameter changes.  After
    WithParam("limit","10") and WithParam("limit","20") on a configuration
    whose base URL is empty or parses, the query of the composed URL holds
    for "limit" the earlier values followed by 10 and 20, and its text
    contains limit=10 and limit=20. *)
Theorem WithParam_appends_to_query (r : request) (u : URL) :
  parsedBase r = inl u →
  (∀ name value k,
      Values.index (paramsOf (WithParam r name value)) k
      = if decide (k = name) then Values.index (paramsOf r) k ++ [value]
        else Values.index (paramsOf r) k)
  ∧ let r' := WithParam (WithParam r "limit" "10") "limit" "20" in
    let q := RawQuery (wrapURL r').2 in
    q = Values.Encode (wrapQuery r')
    ∧ Values.pairsFor "limit" (wrapQuery r')
      = (λ x, ("limit", x)) <$> (Values.index (paramsOf r) "limit" ++ ["10"; "20"])
    ∧ contains q "limit=10" ∧ contains q "limit=20".
Proof.
  intros Hp. split; [intros; apply WithParam_index|].
  cbv zeta.
  set (r' := WithParam (WithParam r "limit" "10") "limit" "20").
  assert (Hg : Values.index (wrapQuery r') "limit"
               = Values.index (paramsOf r) "limit" ++ ["10"; "20"]).
  { rewrite wrapQuery_index. destruct (decide _) as [[_ ?]|]; [done|].
    unfold r'. rewrite !WithParam_index, !decide_True by done.
    by rewrite <- app_assoc. }
  destruct (wrapURL_parsed r' u) as [_ Hq]; [done|].
  rewrite Hq. split; [done|]. split; [by rewrite pairsFor_index, Hg|].
  split.
  - apply (Encode_contains _ "limit" "10"). rewrite Hg.
    apply elem_of_app. right. by left.
  - apply (Encode_contains _ "limit" "20"). rewrite Hg.
    apply elem_of_app. right. right. by left.
Qed.

(** C10.  On a configuration whose base URL is empty or parses, the query
    of the composed URL is the encoding of the parameters with, when the
    timeout is not zero, the values of "timeout" replaced by the single
    text of the duration; every other key keeps its values, and with a
    zero timeout "timeout" keeps the caller's values too. *)
Theorem wrapURL_timeout_replaces_param (r : request) (u : URL) :
  parsedBase r = inl u →
  RawQuery (wrapURL r).2 = Values.Encode (wrapQuery r)
  ∧ (timeout r ≠ 0 →
     Values.pairsFor "timeout" (wrapQuery r)
     = [("timeout", Duration_String (timeout r))])
  ∧ (timeout r = 0 →
     Values.pairsFor "timeout" (wrapQuery r)
     = (λ x, ("timeout", x)) <$> Values.index (paramsOf r) "timeout")
  ∧ (∀ k, k ≠ "timeout" →
     Values.pairsFor k (wrapQuery r) = (λ x, (k, x)) <$> Values.index (paramsOf r) k).
Proof.
  intros Hp. destruct (wrapURL_parsed r u Hp) as [_ Hq].
  split; [done|]. repeat split.
  - intros Ht. rewrite pairsFor_index, wrapQuery_index.
    destruct (decide _) as [|Hn]; [done|]. exfalso. by apply Hn.
  - intros Ht. rewrite pairsFor_index, wrapQuery_index.
    destruct (decide _) as [[? _]|]; done.
  - intros k Hk. rewrite pairsFor_index, wrapQuery_index.
    destruct (decide _) as [[_ ?]|]; done.
Qed.

End CompositionProperties.

(* ===================================================================== *)
(** ** Runs on the concrete configurations *)
(* ===================================================================== *)

Example getUser_url :
  Sample.urlString (wrapURL getUser).2 = "https://api.example.com/users/42".
Proof. vm_compute. reflexivity. Qed.

Example getWithTimeout_url :
  Sample.urlString (wrapURL getWithTimeout).2 = "https://api.example.com?timeout=5s".
Proof. vm_compute. reflexivity. Qed.

Example Body_nil_is_empty :
  body (Body getAnonymous None) = [] ∧ err (Body getAnonymous None) = None.
Proof. split; reflexivity. Qed.

Lemma Do_GET_reset_exhausts_witness :
  0 ≤ retryCount getUser
  ∧ invocations [] (Do getUser []).2 ≤ 3
  ∧ invocations [] (Do getUser []).2 = 3
  ∧ (Do getUser []).1.1 = exhausted.
Proof.
  assert (Hrc : 0 ≤ retryCount getUser) by (vm_compute; discriminate).
  destruct (Do_GET_reset_exhausts getUser [] Hrc) as [Hbound Hexact].
  split; [exact Hrc|]. split; [exact Hbound|].
  apply Hexact.
  - reflexivity.
  - reflexivity.
  - eexists. vm_compute. reflexivity.
  - intros w req. eexists. split; reflexivity.
Defined.

(** C2, at the failing input.  A POST whose response body breaks off with
    io.ErrUnexpectedEOF is sent again: with one retry configured the
    client is called twice and Do ends with "unexpected error". *)
Theorem Do_POST_truncated_body_is_retried :
  method postTruncated = MethodPost
  ∧ invocations [] (Do postTruncated []).2 = 2
  ∧ map req_Method (Do postTruncated []).2 = ["POST"; "POST"]
  ∧ (Do postTruncated []).1.1 = exhausted.
Proof. vm_compute. repeat split. Qed.

Lemma Do_nonGET_transport_error_fatal_witness :
  ∃ req e,
    Sample.resetClient [] req = inr e
    ∧ isConnectionReset e = true
    ∧ (Do (@Post Sample.lib (NewClient (Some Sample.resetClient) exampleBase)) []).1.1
      = ResultV2.mkResult [] (Some e) 0
    ∧ (Do (@Post Sample.lib (NewClient (Some Sample.resetClient) exampleBase)) []).2
      = [req].
Proof.
  destruct (Do_nonGET_transport_error_fatal
              (@Post Sample.lib (NewClient (Some Sample.resetClient) exampleBase)) [])
    as (req & e & Hans & Hrt & Hw).
  - vm_compute. discriminate.
  - reflexivity.
  - eexists. vm_compute. reflexivity.
  - intros req. eexists. reflexivity.
  - exists req, e. split; [exact Hans|]. split; [|split; [exact Hrt|exact Hw]].
    injection Hans as <-. reflexivity.
Defined.

Lemma Do_unparsed_baseURL_witness :
  let '(rt, r', w') := Do getBadBase [] in
  (∃ rest,
      w' = [] ++ dressed (set_err getBadBase (Some badBaseError))
                   (mkWire "GET" zeroURL ∅ [] ctxBackground) :: rest)
  ∧ req_URL (dressed (set_err getBadBase (Some badBaseError))
               (mkWire "GET" zeroURL ∅ [] ctxBackground))
    = zeroURL
  ∧ err r' = Some badBaseError
  ∧ Do r' w' = (ResultV2.mkResult [] (Some badBaseError) 0, r', w').
Proof.
  exact (Do_unparsed_baseURL_reaches_transport getBadBase [] badBaseError
           (mkWire "GET" zeroURL ∅ [] ctxBackground) eq_refl eq_refl eq_refl).
Defined.

(** The first Do on the unparsable base URL: one request for the empty
    URL was dispatched, and the result carries the client's error, not
    the parse error. *)
Example Do_unparsed_baseURL_first_result :
  err getBadBase = None
  ∧ map (λ req, Sample.urlString (req_URL req)) (Do getBadBase []).2 = [""]
  ∧ ResultV2.err (Do getBadBase []).1.1
    = Some (url_Error "Get" "" (Some (otherError "unsupported protocol scheme")))
  ∧ err (Do getBadBase []).1.2 = Some badBaseError.
Proof. vm_compute. repeat split. Qed.

(** C4, the claim fails: in the first revision a result without an error
    but with status 404, decoded into a nil target, returns an error. *)
Lemma IntoV1_nil_target_status_error :
  (@ResultV1.Into Sample.lib (ResultV1.mkResult [] None 404 "404 Not Found") None).2
  = Some (otherError "http response with status: 404 Not Found").
Proof. reflexivity. Qed.

(** C5, the claim fails: after a Body call set the error field, a second
    Body call with another unserializable value replaces it, and Do
    returns the second error, not the first. *)
Lemma later_Body_failure_replaces_error :
  err postChan = Some chanError
  ∧ (Do (Body postChan (Some Sample.VFunc)) []).1.1
    = ResultV2.mkResult [] (Some funcError) 0
  ∧ (Do (Body postChan (Some Sample.VFunc)) []).2 = []
  ∧ chanError ≠ funcError.
Proof. repeat split. discriminate. Qed.

Lemma err_set_short_circuits_witness :
  err postChan = Some chanError
  ∧ forallb (λ s, negb (failingBody s)) laterUses = true
  ∧ let '(rts, r', w') := run laterUses postChan [] in
    w' = [] ∧ r' = configuredBy laterUses postChan
    ∧ is_Some (err r') ∧ Forall shortCircuited rts
    ∧ err r' = Some chanError
    ∧ Forall (λ x, x.1 = ResultV2.mkResult [] (Some chanError) 0) rts.
Proof.
  split; [reflexivity|]. split; [reflexivity|].
  pose proof (err_set_short_circuits laterUses postChan [] chanError eq_refl)
    as [_ Hrun].
  destruct (run laterUses postChan []) as [[rts r'] w'].
  destruct Hrun as (Hw & Hr & Hs & Hf & Hkeep).
  destruct (Hkeep eq_refl) as [He Hall].
  split; [exact Hw|]. split; [exact Hr|]. split; [exact Hs|]. split; [exact Hf|].
  split; [exact He|exact Hall].
Defined.

Example laterUses_results :
  (run laterUses postChan []).1.1
  = [(ResultV2.mkResult [] (Some chanError) 0, Some chanError);
     (ResultV2.mkResult [] (Some chanError) 0, Some chanError)].
Proof. vm_compute. reflexivity. Qed.

(** C6, the claim fails: with both credentials empty the wire request
    still carries an Authorization header, "Basic " + base64(":"). *)
Lemma empty_credentials_still_sent :
  username getAnonymous = "" ∧ password getAnonymous = ""
  ∧ ∃ req, (tryOnce getAnonymous []).2 = [req]
           ∧ Header.lookup (req_Header req) "Authorization" = Some ["Basic Og=="].
Proof.
  split; [reflexivity|]. split; [reflexivity|].
  eexists. split; [reflexivity|]. vm_compute. reflexivity.
Qed.

Lemma WithParam_appends_witness :
  let r' := WithParam (WithParam getUser "limit" "10") "limit" "20" in
  RawQuery (wrapURL r').2 = "limit=10&limit=20"
  ∧ Values.pairsFor "limit" (wrapQuery r') = [("limit", "10"); ("limit", "20")]
  ∧ contains (RawQuery (wrapURL r').2) "limit=10"
  ∧ contains (RawQuery (wrapURL r').2) "limit=20".
Proof.
  destruct (WithParam_appends_to_query getUser exampleBaseURL eq_refl)
    as (_ & Hq & Hpairs & H10 & H20).
  split; [vm_compute; reflexivity|].
  split; [exact Hpairs|]. split; [exact H10|exact H20].
Defined.

Lemma wrapURL_timeout_witness :
  params getWithTimeout = Some {[ "timeout" := ["1s"] ]}
  ∧ RawQuery (wrapURL getWithTimeout).2 = "timeout=5s"
  ∧ Values.pairsFor "timeout" (wrapQuery getWithTimeout) = [("timeout", "5s")].
Proof.
  destruct (wrapURL_timeout_replaces_param getWithTimeout exampleBaseURL eq_refl)
    as (Hq & Hset & _ & _).
  split; [reflexivity|]. split; [vm_compute; reflexivity|].
  apply Hset. vm_compute. discriminate.
Defined.

Lemma sample_decode_stable : @decode_stable Sample.lib.
Proof.
  intros b o. cbn [json_Decode Sample.lib]. unfold Sample.decode.
  destruct o as [n|t| |]; destruct (String.string_of_list_byte b) as [|c s] eqn:Hs;
    try reflexivity.
  destruct (Sample.digits 0 (String c s)) as [m|] eqn:Hd; cbn [fst snd];
    reflexivity.
Qed.

Lemma Into_twice_witness :
  (let '(r1', obj', e) :=
     @ResultV1.Into Sample.lib
       (ResultV1.mkResult (Sample.bytes "42") None 200 "200 OK")
       (Some (Sample.VInt 0)) in
   let '(r1'', _, e') := ResultV1.Into r1' obj' in
   r1' = ResultV1.mkResult (Sample.bytes "42") None 200 "200 OK"
   ∧ r1'' = ResultV1.mkResult (Sample.bytes "42") None 200 "200 OK" ∧ e' = e)
  ∧
  (let '(r2', obj', e) :=
     @ResultV2.Into Sample.lib
       (ResultV2.mkResult (Sample.bytes "4x") None 200)
       (Some (Sample.VInt 0)) in
   let '(r2'', _, e') := ResultV2.Into r2' obj' in
   r2' = ResultV2.mkResult (Sample.bytes "4x") None 200
   ∧ r2'' = ResultV2.mkResult (Sample.bytes "4x") None 200 ∧ e' = e).
Proof.
  exact (Into_twice_same_outcome sample_decode_stable
           (ResultV1.mkResult (Sample.bytes "42") None 200 "200 OK")
           (ResultV2.mkResult (Sample.bytes "4x") None 200)
           (Some (Sample.VInt 0))).
Defined.

Example Into_decodes_sample :
  @ResultV2.Into Sample.lib (ResultV2.mkResult (Sample.bytes "42") None 200)
    (Some (Sample.VInt 0))
  = (ResultV2.mkResult (Sample.bytes "42") None 200, Some (Sample.VInt 42), None).
Proof. vm_compute. reflexivity. Qed.

(* ===================================================================== *)
(** ** Further properties of Do *)
(* ===================================================================== *)

Section OutcomeProperties.
Context `{GoLib}.

Lemma classify_response (m : string) (resp : response) :
  readError resp = None →
  classify m (inl resp)
  = (ResultV2.mkResult (bodyOf resp) None (resp_StatusCode resp), false).
Proof.
  unfold readError, bodyOf, classify.
  destruct (resp_Body resp) as [[data [e|]]|]; [discriminate|done|done].
Qed.

Lemma classify_read_error (m : string) (resp : response) (e : error) :
  readError resp = Some e → e ≠ io_ErrUnexpectedEOF →
  classify m (inl resp) = (ResultV2.mkResult [] (Some e) 0, false).
Proof.
  unfold readError, classify.
  destruct (resp_Body resp) as [[data [e'|]]|]; [|discriminate|discriminate].
  intros [= ->] Hne. by destruct e.
Qed.

Lemma classify_retry (m : string) (a : response + error) (rt : ResultV2.result) :
  classify m a = (rt, true) → rt = ResultV2.zero.
Proof.
  unfold classify. destruct a as [resp|e].
  - destruct (resp_Body resp) as [[data [[]|]]|]; congruence.
  - destruct (negb _ || negb _); congruence.
Qed.

(** An error in a classified answer comes without body and status. *)
Lemma classify_error_form (m : string) (a : response + error) :
  ResultV2.err (classify m a).1 = None
  ∨ (ResultV2.body (classify m a).1 = [] ∧ ResultV2.statusCode (classify m a).1 = 0).
Proof.
  unfold classify. destruct a as [resp|e].
  - destruct (resp_Body resp) as [[data [[]|]]|]; cbn; auto.
  - destruct (negb _ || negb _); cbn; auto.
Qed.

Lemma tryOnce_built (r : request) (w : world) (req0 : wireRequest) :
  http_NewRequest (method r) (URL_String (wrapURL r).2) (body r) = inl req0 →
  tryOnce r w
  = (classify (method r) (effectiveClient r w (dressed (wrapURL r).1 req0)),
     afterAttempt (wrapURL r).1, w ++ [dressed (wrapURL r).1 req0]).
Proof. intros Hb. attempt_cases r w Hs. by rewrite Hb in Hs. Qed.

Lemma tryOnce_retry_zero (r : request) (w : world) :
  (tryOnce r w).1.1.2 = true →
  (tryOnce r w).1.1.1 = ResultV2.zero ∧ ∃ req, (tryOnce r w).2 = w ++ [req].
Proof.
  attempt_cases r w Hs.
  destruct (http_NewRequest _ _ _) as [req0|e]; rewrite Hs; cbn [fst snd];
    [|discriminate].
  destruct (classify _ _) as [rt retry] eqn:Hc. cbn [fst snd]. intros ->.
  split; [by eapply classify_retry|by eexists].
Qed.

Lemma retryLoop_config n : ∀ rt r w, same_config r (retryLoop n rt r w).1.2.
Proof.
  induction n as [|n IH]; intros rt r w; cbn [retryLoop].
  - apply same_config_refl.
  - pose proof (tryOnce_config r w) as Hc.
    destruct (tryOnce r w) as [[[rt1 retry] r1] w1]. cbn [fst snd] in Hc.
    destruct retry; cbn [negb fst snd]; [|done].
    eapply same_config_trans; [exact Hc|apply IH].
Qed.

Lemma Do_config (r : request) (w : world) : same_config r (Do r w).1.2.
Proof.
  unfold Do. destruct (err r); [apply same_config_refl|].
  pose proof (tryOnce_config r w) as Hc.
  destruct (tryOnce r w) as [[[rt1 retry] r1] w1]. cbn [fst snd] in Hc.
  destruct retry; cbn [negb fst snd]; [|done].
  eapply same_config_trans; [exact Hc|apply retryLoop_config].
Qed.

Lemma invocations_one (w : world) (req : wireRequest) : invocations w (w ++ [req]) = 1.
Proof. unfold invocations. rewrite length_app. cbn. lia. Qed.

(** A response whose body reads to its end is returned at once: Do
    stores its bytes and status code and calls the client once, for
    every method and every retry bound. *)
Theorem Do_returns_first_response (r : request) (w : world) (resp : response) :
  err r = None → buildable r →
  (∀ req, effectiveClient r w req = inl resp) →
  readError resp = None →
  (Do r w).1.1 = ResultV2.mkResult (bodyOf resp) None (resp_StatusCode resp)
  ∧ invocations w (Do r w).2 = 1.
Proof.
  intros He [req0 Hb] Hans Hread. unfold Do.
  rewrite He, (tryOnce_built r w req0 Hb), Hans, (classify_response _ _ Hread).
  cbn [negb fst snd]. split; [done|apply invocations_one].
Qed.

(** A body read that fails with an error other than io.ErrUnexpectedEOF
    ends the run: the error is returned without the bytes read so far
    and without the status code, after one call of the client. *)
Theorem Do_body_read_error_is_fatal (r : request) (w : world) (resp : response)
    (e : error) :
  err r = None → buildable r →
  (∀ req, effectiveClient r w req = inl resp) →
  readError resp = Some e → e ≠ io_ErrUnexpectedEOF →
  (Do r w).1.1 = ResultV2.mkResult [] (Some e) 0
  ∧ invocations w (Do r w).2 = 1.
Proof.
  intros He [req0 Hb] Hans Hread Hne. unfold Do.
  rewrite He, (tryOnce_built r w req0 Hb), Hans, (classify_read_error _ _ _ Hread Hne).
  cbn [negb fst snd]. split; [done|apply invocations_one].
Qed.

Lemma retryLoop_recovers (resp : response) (j : nat) : ∀ n rt r w,
  (j < n)%nat → method r = MethodGet → buildable r →
  (∀ w' req, (length w ≤ length w' < length w + j)%nat →
     ∃ e, effectiveClient r w' req = inr e ∧ isConnectionReset e = true) →
  (∀ w' req, length w' = (length w + j)%nat → effectiveClient r w' req = inl resp) →
  readError resp = None →
  (retryLoop n rt r w).1.1 = ResultV2.mkResult (bodyOf resp) None (resp_StatusCode resp)
  ∧ length (retryLoop n rt r w).2 = (length w + j + 1)%nat.
Proof.
  induction j as [|j IH]; intros n rt r w Hn Hm [req0 Hb] Hreset Hok Hread;
    (destruct n as [|n]; [lia|]); cbn [retryLoop]; rewrite (tryOnce_built r w req0 Hb).
  - rewrite (Hok w) by lia. rewrite (classify_response _ _ Hread).
    cbn [negb fst snd]. split; [done|]. rewrite length_app. cbn. lia.
  - destruct (Hreset w (dressed (wrapURL r).1 req0)) as (e & -> & He); [lia|].
    unfold classify. rewrite He, Hm. cbn [negb orb String.eqb fst snd].
    change (String.eqb MethodGet MethodGet) with true. cbn [negb orb].
    assert (Hc : same_config r (afterAttempt (wrapURL r).1)).
    { eapply same_config_trans; [apply wrapURL_config|apply afterAttempt_config]. }
    pose proof (same_config_fields _ _ Hc) as (Hm' & Hcl & _).
    assert (Hlen : length (w ++ [dressed (wrapURL r).1 req0]) = S (length w)).
    { rewrite length_app. cbn. lia. }
    destruct (IH n ResultV2.zero (afterAttempt (wrapURL r).1)
                (w ++ [dressed (wrapURL r).1 req0])) as [Hrt Hl].
    + lia.
    + by rewrite Hm'.
    + eapply buildable_config; [exact Hc|by exists req0].
    + intros w' req Hw'. unfold effectiveClient in *. rewrite Hcl.
      apply Hreset. lia.
    + intros w' req Hw'. unfold effectiveClient in *. rewrite Hcl.
      apply Hok. lia.
    + done.
    + split; [done|]. rewrite Hl. lia.
Qed.

(** A GET whose first [k] round trips end in a connection reset and whose
    next one is answered, with [k] within the retry bound, returns that
    answer after k + 1 calls of the client. *)
Theorem Do_GET_recovers_after_resets (r : request) (w : world) (resp : response)
    (k : nat) :
  method r = MethodGet → err r = None → buildable r →
  Z.of_nat k ≤ retryCount r →
  (∀ w' req, (length w ≤ length w' < length w + k)%nat →
     ∃ e, effectiveClient r w' req = inr e ∧ isConnectionReset e = true) →
  (∀ w' req, length w' = (length w + k)%nat → effectiveClient r w' req = inl resp) →
  readError resp = None →
  (Do r w).1.1 = ResultV2.mkResult (bodyOf resp) None (resp_StatusCode resp)
  ∧ invocations w (Do r w).2 = Z.of_nat k + 1.
Proof.
  intros Hm He [req0 Hb] Hk Hreset Hok Hread. unfold Do.
  rewrite He, (tryOnce_built r w req0 Hb).
  destruct k as [|k].
  - rewrite (Hok w) by lia. rewrite (classify_response _ _ Hread).
    cbn [negb fst snd]. split; [done|apply invocations_one].
  - destruct (Hreset w (dressed (wrapURL r).1 req0)) as (e & -> & Hreset'); [lia|].
    unfold classify. rewrite Hreset', Hm.
    change (String.eqb MethodGet MethodGet) with true. cbn [negb orb fst snd].
    assert (Hc : same_config r (afterAttempt (wrapURL r).1)).
    { eapply same_config_trans; [apply wrapURL_config|apply afterAttempt_config]. }
    pose proof (same_config_fields _ _ Hc) as (Hm' & Hcl & _ & Hrc & _).
    destruct (retryLoop_recovers resp k
                (Z.to_nat (retryCount (afterAttempt (wrapURL r).1))) ResultV2.zero
                (afterAttempt (wrapURL r).1) (w ++ [dressed (wrapURL r).1 req0]))
      as [Hrt Hl].
    + rewrite Hrc. lia.
    + by rewrite Hm'.
    + eapply buildable_config; [exact Hc|by exists req0].
    + intros w' req Hw'. unfold effectiveClient in *. rewrite Hcl.
      apply Hreset. rewrite length_app in Hw'. cbn in Hw'. lia.
    + intros w' req Hw'. unfold effectiveClient in *. rewrite Hcl.
      apply Hok. rewrite length_app in Hw'. cbn in Hw'. lia.
    + done.
    + split; [done|]. unfold invocations. rewrite Hl, length_app. cbn. lia.
Qed.

End OutcomeProperties.

Section AttemptInvariants.
Context `{GoLib}.

Lemma tryOnce_error_form (r : request) (w : world) :
  ResultV2.err (tryOnce r w).1.1.1 = None
  ∨ (ResultV2.body (tryOnce r w).1.1.1 = []
     ∧ ResultV2.statusCode (tryOnce r w).1.1.1 = 0).
Proof.
  attempt_cases r w Hs.
  destruct (http_NewRequest _ _ _) as [req0|e]; rewrite Hs; cbn [fst snd].
  - apply classify_error_form.
  - right. done.
Qed.

Lemma retryLoop_error_form n : ∀ r w,
  ResultV2.err (retryLoop n ResultV2.zero r w).1.1 = None
  ∨ (ResultV2.body (retryLoop n ResultV2.zero r w).1.1 = []
     ∧ ResultV2.statusCode (retryLoop n ResultV2.zero r w).1.1 = 0).
Proof.
  induction n as [|n IH]; intros r w; cbn [retryLoop]; [right; done|].
  pose proof (tryOnce_error_form r w) as Hf.
  pose proof (tryOnce_retry_zero r w) as Hz.
  destruct (tryOnce r w) as [[[rt1 retry] r1] w1]. cbn [fst snd] in *.
  destruct retry; cbn [negb fst snd]; [|done].
  destruct (Hz eq_refl) as [-> _]. apply IH.
Qed.

(** The result of Do never carries both an error and response data: with
    an error set, the body is empty and the status code is 0. *)
Theorem Do_error_excludes_data (r : request) (w : world) :
  ResultV2.err (Do r w).1.1 = None
  ∨ (ResultV2.body (Do r w).1.1 = [] ∧ ResultV2.statusCode (Do r w).1.1 = 0).
Proof.
  unfold Do. destruct (err r); [right; done|].
  pose proof (tryOnce_error_form r w) as Hf.
  pose proof (tryOnce_retry_zero r w) as Hz.
  destruct (tryOnce r w) as [[[rt1 retry] r1] w1]. cbn [fst snd] in *.
  destruct retry; cbn [negb fst snd]; [|done].
  destruct (Hz eq_refl) as [-> _]. apply retryLoop_error_form.
Qed.

(** A retry bound of zero or below leaves Do with its first attempt: the
    client is called at most once, and a GET that meets a connection
    reset ends at once with "unexpected error". *)
Theorem Do_nonpositive_bound_single_attempt (r : request) (w : world) :
  retryCount r ≤ 0 →
  invocations w (Do r w).2 ≤ 1
  ∧ (method r = MethodGet → err r = None → buildable r →
     (∀ req, ∃ e, effectiveClient r w req = inr e ∧ isConnectionReset e = true) →
     (Do r w).1.1 = exhausted ∧ invocations w (Do r w).2 = 1).
Proof.
  intros Hrc. split.
  - destruct (Do_log r w) as (sent & -> & Hl).
    unfold invocations. rewrite length_app. lia.
  - intros Hm He [req0 Hb] Hreset. unfold Do.
    rewrite He, (tryOnce_built r w req0 Hb).
    destruct (Hreset (dressed (wrapURL r).1 req0)) as (e & -> & Hr).
    unfold classify. rewrite Hr, Hm.
    change (String.eqb MethodGet MethodGet) with true. cbn [negb orb fst snd].
    assert (Hc : same_config r (afterAttempt (wrapURL r).1)).
    { eapply same_config_trans; [apply wrapURL_config|apply afterAttempt_config]. }
    pose proof (same_config_fields _ _ Hc) as (_ & _ & _ & -> & _).
    replace (Z.to_nat (retryCount r)) with 0%nat by lia.
    cbn [retryLoop fst snd]. split; [done|apply invocations_one].
Qed.

Lemma tryOnce_after (r : request) (w : world) :
  ((tryOnce r w).1.2 = (wrapURL r).1 ∧ (tryOnce r w).2 = w
   ∧ (tryOnce r w).1.1.2 = false)
  ∨ ∃ req0,
      http_NewRequest (method r) (URL_String (wrapURL r).2) (body r) = inl req0
      ∧ (tryOnce r w).1.2 = afterAttempt (wrapURL r).1
      ∧ (tryOnce r w).2 = w ++ [dressed (wrapURL r).1 req0].
Proof.
  attempt_cases r w Hs.
  destruct (http_NewRequest _ _ _) as [req0|e]; rewrite Hs; cbn [fst snd].
  - right. by exists req0.
  - left. done.
Qed.

(** What an attempt may do to the two fields it assigns. *)
Lemma tryOnce_err_ctx (r : request) (w : world) :
  (timeout r ≤ 0 → ctx (tryOnce r w).1.2 = ctx r)
  ∧ (∀ u, parsedBase r = inl u → err (tryOnce r w).1.2 = err r).
Proof.
  assert (Hwc : ctx (wrapURL r).1 = ctx r ∧ timeout (wrapURL r).1 = timeout r).
  { destruct (parsedBase r) as [u|e] eqn:Hp.
    - by destruct (wrapURL_parsed r u Hp) as [-> _].
    - by rewrite (wrapURL_failed r e Hp). }
  destruct Hwc as [Hwc Hwt].
  assert (Haft : ∀ x, err (afterAttempt x) = err x).
  { intros x. unfold afterAttempt. by destruct (0 <? timeout x). }
  split.
  - intros Ht. destruct (tryOnce_after r w) as [(-> & _)|(req0 & _ & -> & _)]; [done|].
    unfold afterAttempt. rewrite Hwt.
    destruct (Z.ltb_spec 0 (timeout r)); [lia|done].
  - intros u Hp. destruct (wrapURL_parsed r u Hp) as [Hw _].
    destruct (tryOnce_after r w) as [(-> & _)|(req0 & _ & -> & _)].
    + by rewrite Hw.
    + by rewrite Haft, Hw.
Qed.

Lemma retryLoop_err_ctx n : ∀ rt r w,
  (timeout r ≤ 0 → ctx (retryLoop n rt r w).1.2 = ctx r)
  ∧ (∀ u, parsedBase r = inl u → err (retryLoop n rt r w).1.2 = err r).
Proof.
  induction n as [|n IH]; intros rt r w; cbn [retryLoop]; [done|].
  pose proof (tryOnce_err_ctx r w) as [Hc He].
  pose proof (tryOnce_config r w) as Hcfg.
  pose proof (parsedBase_config _ _ Hcfg) as Hp.
  pose proof (same_config_fields _ _ Hcfg) as (_ & _ & _ & _ & Ht & _).
  destruct (tryOnce r w) as [[[rt1 retry] r1] w1]. cbn [fst snd] in *.
  destruct retry; cbn [negb fst snd]; [|done].
  destruct (IH rt1 r1 w1) as [Hc' He']. split.
  - intros Hle. rewrite Hc' by lia. by apply Hc.
  - intros u Hu. rewrite (He' u) by (by rewrite Hp). by apply (He u).
Qed.

(** Do assigns nothing of the configuration but r.err and r.ctx: every
    other field is as it was.  It leaves r.ctx alone unless the timeout
    is positive, and r.err alone when the base URL is empty or parses. *)
Theorem Do_assigns_only_err_and_ctx (r : request) (w : world) :
  (Do r w).1.2 = set_ctx (set_err r (err (Do r w).1.2)) (ctx (Do r w).1.2)
  ∧ (timeout r ≤ 0 → ctx (Do r w).1.2 = ctx r)
  ∧ (∀ u, parsedBase r = inl u → err (Do r w).1.2 = err r).
Proof.
  split; [apply Do_config|].
  unfold Do. destruct (err r) eqn:Her; [done|].
  pose proof (tryOnce_err_ctx r w) as [Hc He].
  pose proof (tryOnce_config r w) as Hcfg.
  pose proof (parsedBase_config _ _ Hcfg) as Hp.
  pose proof (same_config_fields _ _ Hcfg) as (_ & _ & _ & _ & Ht & _).
  destruct (tryOnce r w) as [[[rt1 retry] r1] w1]. cbn [fst snd] in *.
  destruct retry; cbn [negb fst snd].
  - destruct (retryLoop_err_ctx (Z.to_nat (retryCount r1)) rt1 r1 w1) as [Hc' He'].
    split.
    + intros Hle. rewrite Hc' by lia. by apply Hc.
    + intros u Hu. rewrite (He' u) by (by rewrite Hp). rewrite (He u Hu). done.
  - split; [done|]. intros u Hu. by rewrite (He u Hu).
Qed.

End AttemptInvariants.

Section WireProperties.
Context `{GoLib}.

Lemma dressed_fields (r : request) (req0 : wireRequest) :
  req_Method (dressed r req0) = req_Method req0
  ∧ req_URL (dressed r req0) = req_URL req0
  ∧ req_Body (dressed r req0) = req_Body req0
  ∧ req_Header (dressed r req0) = wireHeader r
  ∧ req_ctx (dressed r req0)
    = if 0 <? timeout r
      then ctxWithTimeout (default ctxBackground (ctx r)) (timeout r)
      else default (req_ctx req0) (ctx r).
Proof.
  unfold dressed, wireHeader. destruct (0 <? timeout r); [done|].
  by destruct (ctx r).
Qed.

Lemma NewRequest_fields (m u : string) (b : list Byte.byte) (req0 : wireRequest) :
  http_NewRequest m u b = inl req0 →
  req_Method req0 = (if String.eqb m "" then "GET" else m)
  ∧ (∃ u', url_Parse u = inl u'
           ∧ req_URL req0 = URL_set_Host u' (removeEmptyPort (Host u')))
  ∧ req_Body req0 = b ∧ req_ctx req0 = ctxBackground.
Proof.
  unfold http_NewRequest. destruct (negb (validMethod _)); [discriminate|].
  destruct (url_Parse u) as [u'|e]; [|discriminate]. intros [= <-].
  split; [done|]. split; [by exists u'|done].
Qed.

Lemma wireHeader_config (r r' : request) :
  same_config r r' → wireHeader r' = wireHeader r.
Proof.
  intros Hc. pose proof (same_config_fields _ _ Hc) as (_&_&_&_&_& Hu & Hp & Hh &_).
  unfold wireHeader, attemptHeader. by rewrite Hu, Hp, Hh.
Qed.

Lemma dispatchedFor_config (r r' : request) (req : wireRequest) :
  same_config r r' → dispatchedFor r' req → dispatchedFor r req.
Proof.
  intros Hc (req0 & Hb & Hrest). exists req0.
  pose proof (same_config_fields _ _ Hc) as (Hm & _ & Hbody & _).
  rewrite <- Hm, <- Hbody, <- (wrapURL_snd_config _ _ Hc),
    <- (wireHeader_config _ _ Hc). done.
Qed.

Lemma tryOnce_dispatched (r : request) (w : world) :
  ∃ sent, (tryOnce r w).2 = w ++ sent ∧ Forall (dispatchedFor r) sent.
Proof.
  destruct (tryOnce_after r w) as [(_ & -> & _)|(req0 & Hb & _ & ->)].
  - exists []. by rewrite app_nil_r.
  - eexists [_]. split; [done|]. constructor; [|done]. exists req0.
    destruct (dressed_fields (wrapURL r).1 req0) as (-> & -> & -> & -> & _).
    by rewrite (wireHeader_config _ _ (wrapURL_config r)).
Qed.

Lemma retryLoop_dispatched n : ∀ rt r w,
  ∃ sent, (retryLoop n rt r w).2 = w ++ sent ∧ Forall (dispatchedFor r) sent.
Proof.
  induction n as [|n IH]; intros rt r w; cbn [retryLoop].
  - exists []. by rewrite app_nil_r.
  - destruct (tryOnce_dispatched r w) as (s1 & Hw1 & Hd1).
    pose proof (tryOnce_config r w) as Hc.
    destruct (tryOnce r w) as [[[rt1 retry] r1] w1]. cbn [fst snd] in *. subst w1.
    destruct retry; cbn [negb snd]; [|by exists s1].
    destruct (IH rt1 r1 (w ++ s1)) as (s2 & -> & Hd2).
    exists (s1 ++ s2). rewrite app_assoc. split; [done|].
    apply Forall_app. split; [done|].
    eapply Forall_impl; [exact Hd2|]. intros req. by apply dispatchedFor_config.
Qed.

Lemma Do_dispatched (r : request) (w : world) :
  ∃ sent, (Do r w).2 = w ++ sent ∧ Forall (dispatchedFor r) sent.
Proof.
  unfold Do. destruct (err r).
  { exists []. by rewrite app_nil_r. }
  destruct (tryOnce_dispatched r w) as (s1 & Hw1 & Hd1).
  pose proof (tryOnce_config r w) as Hc.
  destruct (tryOnce r w) as [[[rt1 retry] r1] w1]. cbn [fst snd] in *. subst w1.
  destruct retry; cbn [negb snd]; [|by exists s1].
  destruct (retryLoop_dispatched (Z.to_nat (retryCount r1)) rt1 r1 (w ++ s1))
    as (s2 & -> & Hd2).
  exists (s1 ++ s2). rewrite app_assoc. split; [done|].
  apply Forall_app. split; [done|].
  eapply Forall_impl; [exact Hd2|]. intros req. by apply dispatchedFor_config.
Qed.

(** Every attempt of a run sends the same request: the configured method
    (GET for an empty one), the parse of the composed URL with an empty
    port stripped from its host (http.NewRequest normalizes "host:" to
    "host"), the configured body and the same header; two requests of a
    run differ at most in their context. *)
Theorem Do_resends_the_same_request (r : request) (w : world) :
  ∃ sent, (Do r w).2 = w ++ sent
    ∧ (∀ req, req ∈ sent →
         req_Method req = (if String.eqb (method r) "" then "GET" else method r)
         ∧ (∃ u, url_Parse (URL_String (wrapURL r).2) = inl u
                 ∧ req_URL req = URL_set_Host u (removeEmptyPort (Host u)))
         ∧ req_Body req = body r
         ∧ req_Header req = wireHeader r)
    ∧ (∀ a b, a ∈ sent → b ∈ sent → sameButContext a b).
Proof.
  destruct (Do_dispatched r w) as (sent & Hw & Hd). exists sent.
  rewrite Forall_forall in Hd. split; [done|]. split.
  - intros req (req0 & Hb & -> & -> & -> & ->)%Hd.
    by destruct (NewRequest_fields _ _ _ _ Hb) as (-> & Hu & -> & _).
  - intros a b (a0 & Ha & Ha1 & Ha2 & Ha3 & Ha4)%Hd (b0 & Hb & Hb1 & Hb2 & Hb3 & Hb4)%Hd.
    assert (a0 = b0) as -> by congruence.
    unfold sameButContext, req_WithContext. congruence.
Qed.

Lemma wireHeader_lookup (r : request) :
  wireHeader r !! "Content-Type" = Some ["application/json"]
  ∧ wireHeader r !! "Accept" = Some ["application/json"]
  ∧ wireHeader r !! "Accept-Charset" = Some ["utf-8"]
  ∧ wireHeader r !! "Accept-Encoding" = None
  ∧ ∀ k, k ∉ ["Accept-Encoding"; "Content-Type"; "Accept"; "Accept-Charset";
               "Authorization"] →
         wireHeader r !! k = default ∅ (header r) !! k.
Proof.
  unfold wireHeader, attemptHeader, Header.Set', Header.Del.
  change (Header.CanonicalMIMEHeaderKey "Authorization") with "Authorization".
  change (Header.CanonicalMIMEHeaderKey "Accept-Charset") with "Accept-Charset".
  change (Header.CanonicalMIMEHeaderKey "Accept") with "Accept".
  change (Header.CanonicalMIMEHeaderKey "Content-Type") with "Content-Type".
  change (Header.CanonicalMIMEHeaderKey "Accept-Encoding") with "Accept-Encoding".
  repeat split.
  - rewrite !lookup_insert_ne by done. apply lookup_insert_eq.
  - rewrite !lookup_insert_ne by done. apply lookup_insert_eq.
  - rewrite !lookup_insert_ne by done. apply lookup_insert_eq.
  - rewrite !lookup_insert_ne by done. apply lookup_delete_eq.
  - intros k Hk. rewrite !not_elem_of_cons in Hk.
    destruct Hk as (? & ? & ? & ? & ? & _).
    rewrite !lookup_insert_ne by done. by rewrite lookup_delete_ne.
Qed.

(** Whatever header the caller configured, every request Do dispatches
    has Content-Type and Accept application/json and Accept-Charset utf-8
    as their only values and no Accept-Encoding; the caller's other keys
    are sent as configured. *)
Theorem Do_forces_negotiation_headers (r : request) (w : world) :
  ∃ sent, (Do r w).2 = w ++ sent
    ∧ ∀ req, req ∈ sent →
        req_Header req !! "Content-Type" = Some ["application/json"]
        ∧ req_Header req !! "Accept" = Some ["application/json"]
        ∧ req_Header req !! "Accept-Charset" = Some ["utf-8"]
        ∧ req_Header req !! "Accept-Encoding" = None
        ∧ ∀ k, k ∉ ["Accept-Encoding"; "Content-Type"; "Accept"; "Accept-Charset";
                     "Authorization"] →
               req_Header req !! k = default ∅ (header r) !! k.
Proof.
  destruct (Do_dispatched r w) as (sent & Hw & Hd). exists sent.
  rewrite Forall_forall in Hd. split; [done|].
  intros req (req0 & _ & _ & _ & _ & ->)%Hd. apply wireHeader_lookup.
Qed.

End WireProperties.

Section TimeoutProperties.
Context `{GoLib}.

Lemma wrapURL_ctx_timeout (r : request) :
  ctx (wrapURL r).1 = ctx r ∧ timeout (wrapURL r).1 = timeout r.
Proof.
  destruct (parsedBase r) as [u|e] eqn:Hp.
  - by destruct (wrapURL_parsed r u Hp) as [-> _].
  - by rewrite (wrapURL_failed r e Hp).
Qed.

(** Under a positive timeout an attempt that reaches the client sends a
    context derived from r.ctx and leaves a canceled one in r.ctx. *)
Lemma tryOnce_timeout (r : request) (w : world) :
  0 < timeout r →
  ((tryOnce r w).2 = w ∧ (tryOnce r w).1.1.2 = false)
  ∨ ∃ req, (tryOnce r w).2 = w ++ [req]
      ∧ ctx_done (req_ctx req) = ctx_done (default ctxBackground (ctx r))
      ∧ ctxDone (tryOnce r w).1.2.
Proof.
  intros Ht. destruct (wrapURL_ctx_timeout r) as [Hc Htw].
  destruct (tryOnce_after r w) as [(_ & -> & ->)|(req0 & _ & -> & ->)]; [by left|].
  right. eexists. split; [done|].
  destruct (dressed_fields (wrapURL r).1 req0) as (_ & _ & _ & _ & ->).
  unfold afterAttempt, ctxDone. rewrite Htw, Hc.
  destruct (Z.ltb_spec 0 (timeout r)); [|lia]. split; [done|].
  by eexists.
Qed.

Lemma retryLoop_timeout n : ∀ rt r w,
  0 < timeout r → ctxDone r →
  ∃ sent, (retryLoop n rt r w).2 = w ++ sent
    ∧ Forall (λ req, ctx_done (req_ctx req) = true) sent
    ∧ ctxDone (retryLoop n rt r w).1.2.
Proof.
  induction n as [|n IH]; intros rt r w Ht Hd; cbn [retryLoop].
  - exists []. by rewrite app_nil_r.
  - pose proof (tryOnce_timeout r w Ht) as Hcase.
    pose proof (same_config_fields _ _ (tryOnce_config r w)) as (_&_&_&_& Ht' &_).
    pose proof (tryOnce_err_ctx r w) as _.
    pose proof (tryOnce_after r w) as Haft.
    destruct (tryOnce r w) as [[[rt1 retry] r1] w1]. cbn [fst snd] in *.
    destruct Hcase as [[-> ->]|(req & -> & Hreq & Hd1)].
    + cbn [negb snd fst]. exists []. rewrite app_nil_r. split; [done|].
      split; [done|].
      destruct Haft as [(-> & _)|(req0 & _ & _ & Hw)].
      * destruct (wrapURL_ctx_timeout r) as [Hc _].
        destruct Hd as (c & Hc' & Hdone). exists c. by rewrite Hc.
      * apply (f_equal length) in Hw. rewrite length_app in Hw. cbn in Hw. lia.
    + assert (Hfirst : ctx_done (req_ctx req) = true).
      { destruct Hd as (c & Hc & Hdone). by rewrite Hreq, Hc. }
      destruct retry; cbn [negb snd fst].
      * destruct (IH rt1 r1 (w ++ [req])) as (s2 & -> & Hs2 & Hd2); [lia|done|].
        exists (req :: s2). rewrite <- app_assoc. split; [done|].
        split; [by constructor|done].
      * exists [req]. split; [done|]. split; [by constructor|done].
Qed.

(** With a positive timeout, every request of a run after the first is
    sent with a context that is already done: each attempt derives its
    context from r.ctx and on return leaves the canceled context there.
    The same holds for r.ctx after the run, so for a later Do on the
    same configuration. *)
Theorem retries_under_timeout_start_canceled (r : request) (w : world) :
  0 < timeout r →
  ∃ sent, (Do r w).2 = w ++ sent
    ∧ (∀ req, req ∈ tail sent → ctx_done (req_ctx req) = true)
    ∧ (sent ≠ [] → ctxDone (Do r w).1.2).
Proof.
  intros Ht. unfold Do. destruct (err r).
  { exists []. rewrite app_nil_r. split; [done|]. split; [|done].
    intros req Hin. by apply not_elem_of_nil in Hin. }
  pose proof (tryOnce_timeout r w Ht) as Hcase.
  pose proof (same_config_fields _ _ (tryOnce_config r w)) as (_&_&_&_& Ht' &_).
  destruct (tryOnce r w) as [[[rt1 retry] r1] w1]. cbn [fst snd] in *.
  destruct Hcase as [[-> ->]|(req & -> & Hreq & Hd1)].
  - cbn [negb snd fst]. exists []. rewrite app_nil_r. split; [done|].
    split; [|done]. intros req Hin. by apply not_elem_of_nil in Hin.
  - destruct retry; cbn [negb snd fst].
    + destruct (retryLoop_timeout (Z.to_nat (retryCount r1)) rt1 r1 (w ++ [req]))
        as (s2 & -> & Hs2 & Hd2); [lia|done|].
      exists (req :: s2). rewrite <- app_assoc. split; [done|].
      split; [|done]. cbn [tail]. intros req' Hin.
      rewrite Forall_forall in Hs2. by apply Hs2.
    + exists [req]. split; [done|]. split; [|done].
      intros req' Hin. by apply not_elem_of_nil in Hin.
Qed.

Lemma wrapURL_retryInterval (r : request) (d : Z) :
  wrapURL (set_retryInterval r d)
  = (set_retryInterval (wrapURL r).1 d, (wrapURL r).2).
Proof.
  unfold wrapURL. destruct r; cbn [baseURL subPathArgs subPath set_retryInterval].
  destruct (negb _); [destruct (url_Parse _)|]; reflexivity.
Qed.

Lemma tryOnce_retryInterval (r : request) (d : Z) (w : world) :
  tryOnce (set_retryInterval r d) w
  = ((tryOnce r w).1.1, set_retryInterval (tryOnce r w).1.2 d, (tryOnce r w).2).
Proof.
  attempt_cases r w Hs. attempt_cases (set_retryInterval r d) w Hs'.
  rewrite wrapURL_retryInterval in Hs'. cbn [fst snd] in Hs'.
  change (method (set_retryInterval r d)) with (method r) in Hs'.
  change (body (set_retryInterval r d)) with (body r) in Hs'.
  change (client (set_retryInterval r d)) with (client r) in Hs'.
  destruct (http_NewRequest _ _ _) as [req0|e]; rewrite Hs, Hs'; cbn [fst snd];
    [|done].
  f_equal. unfold afterAttempt.
  change (timeout (set_retryInterval (wrapURL r).1 d)) with (timeout (wrapURL r).1).
  by destruct (0 <? timeout (wrapURL r).1).
Qed.

Lemma retryLoop_retryInterval n (d : Z) : ∀ rt r w,
  retryLoop n rt (set_retryInterval r d) w
  = ((retryLoop n rt r w).1.1, set_retryInterval (retryLoop n rt r w).1.2 d,
     (retryLoop n rt r w).2).
Proof.
  induction n as [|n IH]; intros rt r w; cbn [retryLoop]; [done|].
  rewrite tryOnce_retryInterval.
  destruct (tryOnce r w) as [[[rt1 retry] r1] w1]. cbn [fst snd].
  destruct retry; cbn [negb]; [apply IH|done].
Qed.

(** Do never reads the retry interval: set to any value, the run returns
    the same result, sends the same requests and leaves the same
    configuration, up to the stored interval itself. *)
Theorem Do_ignores_retryInterval (r : request) (d : Z) (w : world) :
  Do (WithRetryInterval r d) w
  = ((Do r w).1.1, WithRetryInterval (Do r w).1.2 d, (Do r w).2).
Proof.
  unfold WithRetryInterval, Do.
  change (err (set_retryInterval r d)) with (err r).
  destruct (err r); [done|]. rewrite tryOnce_retryInterval.
  destruct (tryOnce r w) as [[[rt1 retry] r1] w1]. cbn [fst snd].
  destruct retry; cbn [negb]; [|done].
  change (retryCount (set_retryInterval r1 d)) with (retryCount r1).
  apply retryLoop_retryInterval.
Qed.

End TimeoutProperties.

(* ===================================================================== *)
(** ** Further properties of the builder *)
(* ===================================================================== *)

(** isConnectionReset accepts exactly ECONNRESET under at most one layer
    each of *os.SyscallError, *net.OpError and *url.Error, nested in
    this order; a layer that repeats or comes out of order, another errno
    and every other error are refused. *)
Theorem isConnectionReset_iff (e : error) :
  isConnectionReset e = true ↔ ∃ inUrl inOp inSyscall, e = resetError inUrl inOp inSyscall.
Proof.
  split.
  - unfold isConnectionReset.
    destruct e as [? ? [e|]|? ? [e|]|? [e|]|n| |?]; try discriminate.
    + destruct e as [? ? [e|]|? ? [e|]|? [e|]|n| |?]; try discriminate.
      * destruct e as [? ? [e|]|? ? [e|]|? [e|]|n| |?]; try discriminate.
        -- destruct e as [| | |n| |]; try discriminate.
           intros ->%bool_decide_eq_true.
           by eexists (Some (_, _)), (Some (_, _)), (Some _).
        -- intros ->%bool_decide_eq_true.
           by eexists (Some (_, _)), (Some (_, _)), None.
      * destruct e as [| | |n| |]; try discriminate.
        intros ->%bool_decide_eq_true.
        by eexists (Some (_, _)), None, (Some _).
      * intros ->%bool_decide_eq_true. by eexists (Some (_, _)), None, None.
    + destruct e as [? ? [e|]|? ? [e|]|? [e|]|n| |?]; try discriminate.
      * destruct e as [| | |n| |]; try discriminate.
        intros ->%bool_decide_eq_true.
        by eexists None, (Some (_, _)), (Some _).
      * intros ->%bool_decide_eq_true. by eexists None, (Some (_, _)), None.
    + destruct e as [| | |n| |]; try discriminate.
      intros ->%bool_decide_eq_true. by eexists None, None, (Some _).
    + intros ->%bool_decide_eq_true. by exists None, None, None.
  - intros (inUrl & inOp & inSyscall & ->).
    by destruct inUrl as [[??]|], inOp as [[??]|], inSyscall as [?|].
Qed.

Lemma trimLeftSlash_spec (s : string) :
  ∃ n, s = slashes n +:+ trimLeftSlash s ∧ ∀ t, trimLeftSlash s ≠ String "/" t.
Proof.
  induction s as [|c s IH]; [by exists 0%nat|].
  cbn [trimLeftSlash]. destruct (Ascii.eqb_spec c "/") as [->|Hc].
  - destruct IH as (n & Hs & Hno). exists (S n). split; [|done].
    change (slashes (S n) +:+ trimLeftSlash s)
      with (String "/" (slashes n +:+ trimLeftSlash s)).
    by rewrite <- Hs.
  - exists 0%nat. split; [done|]. intros t [= ? _]. done.
Qed.

Section MoreBuilderProperties.
Context `{GoLib}.

(** SubResourcef drops every leading slash of the sub-path and nothing
    else: the stored sub-path does not start with a slash, the given one
    is some slashes followed by it, and one more leading slash in the
    argument changes nothing.  The arguments are stored as given. *)
Theorem SubResourcef_strips_leading_slashes
    (r : request) (s : string) (args : list (option Any)) :
  (∃ n, s = slashes n +:+ subPath (SubResourcef r s args))
  ∧ (∀ t, subPath (SubResourcef r s args) ≠ String "/" t)
  ∧ SubResourcef r (String "/" s) args = SubResourcef r s args
  ∧ subPathArgs (SubResourcef r s args) = args.
Proof.
  destruct (trimLeftSlash_spec s) as (n & Hs & Hno).
  split; [by exists n|]. split; [exact Hno|]. split; reflexivity.
Qed.

(** WithParams appends, for every name of its argument, the given value
    to the values the name already has, and leaves other names alone. *)
Theorem WithParams_appends (r : request) (ps : gmap string string) (k : string) :
  Values.index (paramsOf (WithParams r ps)) k
  = Values.index (paramsOf r) k ++ option_list (ps !! k).
Proof.
  unfold WithParams, paramsOf. cbn [params set_params default from_option id].
  apply (map_fold_weak_ind
           (λ acc m, Values.index acc k
                     = Values.index (from_option id ∅ (params r)) k
                       ++ option_list (m !! k))).
  { by rewrite lookup_empty, app_nil_r. }
  intros name value m acc Hfresh IH.
  fold (Values.index acc name). rewrite index_insert.
  destruct (decide (k = name)) as [->|Hne].
  - rewrite lookup_insert_eq, IH, Hfresh. cbn. by rewrite app_nil_r.
  - by rewrite lookup_insert_ne.
Qed.

Lemma headerValues_fold_Add (key k : string) (values : list string) :
  ∀ cur : gmap string (list string),
    headerValues (fold_left (λ cur v, Header.Add cur key v) values cur) k
    = if decide (k = Header.CanonicalMIMEHeaderKey key)
      then headerValues cur k ++ values else headerValues cur k.
Proof.
  induction values as [|v values IH]; intros cur; cbn [fold_left].
  - destruct (decide _); [by rewrite app_nil_r|done].
  - rewrite IH. unfold Header.Add, headerValues.
    destruct (decide (k = Header.CanonicalMIMEHeaderKey key)) as [->|Hne].
    + rewrite lookup_insert_eq. cbn [default from_option id].
      by rewrite <- app_assoc.
    + by rewrite lookup_insert_ne.
Qed.

(** The first WithHeader adopts its argument as it is.  A later one keeps
    every value already configured, in place, and adds values after
    them; when the keys of the argument are in canonical form, the
    values added to a key are exactly the argument's values for it. *)
Theorem WithHeader_merges (r : request) (h : option (gmap string (list string))) :
  (header r = None → header (WithHeader r h) = h)
  ∧ ∀ cur, header r = Some cur →
      ∃ merged, header (WithHeader r h) = Some merged
        ∧ (∀ k, ∃ added, headerValues merged k = headerValues cur k ++ added)
        ∧ ((∀ key vs, default ∅ h !! key = Some vs →
              Header.CanonicalMIMEHeaderKey key = key) →
           ∀ k, headerValues merged k
                = headerValues cur k ++ headerValues (default ∅ h) k).
Proof.
  unfold WithHeader. split; [by intros ->|].
  intros cur ->. eexists. split; [reflexivity|]. split.
  - intros k.
    apply (map_fold_weak_ind
             (λ acc (m : gmap string (list string)),
                ∃ added, headerValues acc k = headerValues cur k ++ added)).
    { exists []. by rewrite app_nil_r. }
    intros key values m acc _ [added IH]. rewrite headerValues_fold_Add.
    destruct (decide _); [|by exists added].
    exists (added ++ values). by rewrite IH, app_assoc.
  - generalize (default ∅ h). intros m Hcanon k. revert Hcanon.
    apply (map_fold_weak_ind
             (λ acc (m : gmap string (list string)),
                (∀ key vs, m !! key = Some vs →
                   Header.CanonicalMIMEHeaderKey key = key) →
                headerValues acc k = headerValues cur k ++ headerValues m k)).
    { intros _. unfold headerValues at 3. by rewrite lookup_empty, app_nil_r. }
    clear m. intros key values m acc Hfresh IH Hcanon.
    assert (Hkey : Header.CanonicalMIMEHeaderKey key = key).
    { apply (Hcanon key values). apply lookup_insert_eq. }
    assert (Hm : ∀ key' vs, m !! key' = Some vs →
                   Header.CanonicalMIMEHeaderKey key' = key').
    { intros key' vs Hl. apply (Hcanon key' vs).
      rewrite lookup_insert_ne; [done|]. intros ->. congruence. }
    rewrite headerValues_fold_Add, Hkey, (IH Hm).
    destruct (decide (k = key)) as [->|Hne]; unfold headerValues.
    + rewrite lookup_insert_eq, Hfresh. cbn [default from_option id].
      by rewrite app_nil_r.
    + by rewrite lookup_insert_ne.
Qed.

Lemma applyCall_seed (r : request) (c : builderCall) :
  method (applyCall r c) = method r ∧ client (applyCall r c) = client r
  ∧ baseURL (applyCall r c) = baseURL r
  ∧ username (applyCall r c) = username r ∧ password (applyCall r c) = password r.
Proof.
  destruct c as [| | h | | | | | |[v|]]; cbn [applyCall]; try done.
  - unfold WithHeader. by destruct (header r).
  - unfold Body. by destruct (json_Marshal v).
Qed.

(** No builder call changes what the factory seeded: after any sequence
    of calls on the request a verb method returned, the method is the
    verb's, and the client, base URL and credentials are the
    restClient's. *)
Theorem builder_keeps_factory_seed
    (rc : restClient) (m : string) (calls : list builderCall) :
  let r := applyCalls (rc_method rc m) calls in
  method r = m ∧ client r = rc_client rc ∧ baseURL r = rc_baseURL rc
  ∧ username r = rc_username rc ∧ password r = rc_password rc.
Proof.
  cbv zeta. unfold applyCalls.
  assert (Hgen : ∀ r0,
    let r := fold_left applyCall calls r0 in
    method r = method r0 ∧ client r = client r0 ∧ baseURL r = baseURL r0
    ∧ username r = username r0 ∧ password r = password r0).
  { induction calls as [|c calls IH]; intros r0; cbn [fold_left]; [done|].
    destruct (IH (applyCall r0 c)) as (-> & -> & -> & -> & ->).
    apply applyCall_seed. }
  apply (Hgen (rc_method rc m)).
Qed.

End MoreBuilderProperties.

(* ===================================================================== *)
(** ** Further properties of Result, and of Do followed by Into *)
(* ===================================================================== *)

Section DecodeProperties.
Context `{GoLib}.

(** When Into succeeds.  The second revision returns nil exactly when no
    error is stored and either the target is nil or the body is not
    empty and decodes; the first revision exactly when no error is
    stored, the status code is 200 and either the target is nil or the
    body decodes (an empty body goes to the decoder too). *)
Theorem Into_succeeds_iff (r1 : ResultV1.result) (r2 : ResultV2.result)
    (obj : option Any) :
  ((ResultV2.Into r2 obj).2 = None ↔
     ResultV2.err r2 = None
     ∧ (obj = None
        ∨ ∃ o, obj = Some o ∧ ResultV2.body r2 ≠ []
               ∧ (json_Decode (ResultV2.body r2) o).2 = None))
  ∧ ((ResultV1.Into r1 obj).2 = None ↔
       ResultV1.err r1 = None ∧ ResultV1.statusCode r1 = StatusOK
       ∧ (obj = None ∨ ∃ o, obj = Some o ∧ (json_Decode (ResultV1.body r1) o).2 = None)).
Proof.
  split.
  - unfold ResultV2.Into. destruct (ResultV2.err r2) as [e|].
    { split; [discriminate|]. by intros [? _]. }
    destruct obj as [o|]; [|by split; auto].
    case_bool_decide as Hlen.
    + split; [discriminate|]. intros [_ [|(o' & _ & Hne & _)]]; [done|].
      by destruct (ResultV2.body r2).
    + destruct (json_Decode (ResultV2.body r2) o) as [o' [e|]] eqn:Hd.
      * split; [discriminate|]. intros [_ [|(o'' & [= <-] & _ & Hok)]]; [done|].
        by rewrite Hd in Hok.
      * split; [|done]. intros _. split; [done|]. right. exists o.
        rewrite Hd. split; [done|]. split; [|done]. intros Hb.
        apply Hlen. by rewrite Hb.
  - unfold ResultV1.Into. destruct (ResultV1.err r1) as [e|].
    { split; [discriminate|]. by intros [? _]. }
    destruct (Z.eqb_spec (ResultV1.statusCode r1) StatusOK) as [Hs|Hs]; cbn [negb].
    + destruct obj as [o|]; [|by split; auto].
      destruct (json_Decode (ResultV1.body r1) o) as [o' [e|]] eqn:Hd.
      * split; [discriminate|]. intros (_ & _ & [|(o'' & [= <-] & Hok)]); [done|].
        by rewrite Hd in Hok.
      * split; [|done]. intros _. split; [done|]. split; [done|]. right.
        exists o. by rewrite Hd.
    + split; [discriminate|]. by intros (_ & ? & _).
Qed.

(** A value that json.Marshal rejects is reported at decode time: after
    Body with such a value, Do calls no client and Into on its result
    returns the serialization error, for every target, leaving the
    target alone. *)
Theorem Body_failure_surfaces_at_Into
    (r : request) (v : Any) (e : error) (w : world) (obj : option Any) :
  json_Marshal v = inr e →
  (Do (Body r (Some v)) w).2 = w
  ∧ ResultV2.Into (Do (Body r (Some v)) w).1.1 obj
    = ((Do (Body r (Some v)) w).1.1, obj, Some e).
Proof.
  intros Hm. destruct (Body_failure r v e Hm) as [He _].
  by rewrite (Do_short_circuit _ w e He).
Qed.

(** A response with an empty body (or none) is a successful Do, but Into
    with a target then fails with an error naming the status code; with
    a nil target it returns nil. *)
Theorem empty_response_fails_at_Into
    (r : request) (w : world) (resp : response) (o : Any) :
  err r = None → buildable r →
  (∀ req, effectiveClient r w req = inl resp) →
  readError resp = None → bodyOf resp = [] →
  ResultV2.err (Do r w).1.1 = None
  ∧ (ResultV2.Into (Do r w).1.1 (Some o)).2
    = Some (otherError ("empty response body with status code: "
                        +:+ pretty (resp_StatusCode resp)))
  ∧ (ResultV2.Into (Do r w).1.1 None).2 = None.
Proof.
  intros He [req0 Hb] Hans Hread Hempty. unfold Do.
  rewrite He, (tryOnce_built r w req0 Hb), Hans, (classify_response _ _ Hread), Hempty.
  cbn [negb fst snd]. done.
Qed.

End DecodeProperties.

(* ===================================================================== *)
(** ** The composed query string *)
(* ===================================================================== *)

Lemma forallb_append (P : ascii → bool) (a b : string) :
  forallb P (String.list_ascii_of_string (a +:+ b))
  = forallb P (String.list_ascii_of_string a)
    && forallb P (String.list_ascii_of_string b).
Proof.
  induction a as [|c a IH]; [done|].
  change (String c a +:+ b) with (String c (a +:+ b)).
  cbn [String.list_ascii_of_string forallb]. by rewrite IH, andb_assoc.
Qed.

Lemma hexdigit_alnum (n : N) : is_alnum (hexdigit n) = true.
Proof.
  unfold hexdigit.
  assert (Hall : ∀ (l : list ascii) (i : nat), forallb is_alnum l = true →
                   is_alnum (nth i l "0"%char) = true).
  { induction l as [|c l IH]; intros [|i] Hl; try done;
      cbn [forallb] in Hl; apply andb_true_iff in Hl as [Hc Hl]; cbn [nth]; auto. }
  by apply Hall.
Qed.

Lemma QueryEscape_bytes (s : string) :
  forallb queryByte (String.list_ascii_of_string (QueryEscape s)) = true.
Proof.
  induction s as [|c s IH]; [done|]. cbn [QueryEscape].
  destruct (Ascii.eqb c " "); [by cbn [String.list_ascii_of_string forallb]; rewrite IH|].
  destruct (shouldEscape c) eqn:Hesc;
    cbn [String.list_ascii_of_string forallb]; rewrite IH, ?andb_true_r.
  - unfold queryByte at 2 3. rewrite !hexdigit_alnum. done.
  - unfold shouldEscape in Hesc. apply negb_false_iff, orb_true_iff in Hesc.
    unfold queryByte. destruct Hesc as [->|Hin]; [done|].
    apply orb_true_iff. right. unfold char_in in *.
    cbn [String.list_ascii_of_string existsb] in *.
    repeat (destruct (Ascii.eqb c _); [by rewrite ?orb_true_r|]). done.
Qed.

Lemma renderPair_bytes (p : string * string) :
  forallb queryByte (String.list_ascii_of_string (Values.renderPair p)) = true.
Proof.
  unfold Values.renderPair. by rewrite !forallb_append, !QueryEscape_bytes.
Qed.

Lemma join_bytes (l : list string) :
  Forall (λ x, forallb queryByte (String.list_ascii_of_string x) = true) l →
  forallb queryByte (String.list_ascii_of_string (join "&" l)) = true.
Proof.
  induction 1 as [|x l Hx Hl IH]; [done|].
  destruct l as [|y l]; [done|].
  change (join "&" (x :: y :: l)) with (x +:+ "&" +:+ join "&" (y :: l)).
  by rewrite !forallb_append, Hx, IH.
Qed.

(** Encode writes only unreserved bytes, [+], [%XX] escapes and the
    separators [=] and [&], whatever bytes the keys and values hold. *)
Lemma Encode_bytes (v : gmap string (list string)) :
  forallb queryByte (String.list_ascii_of_string (Values.Encode v)) = true.
Proof.
  apply join_bytes, Forall_fmap, Forall_forall. intros p _. apply renderPair_bytes.
Qed.

Section QueryProperties.
Context `{GoLib}.

(** The query of a composed URL is made of unreserved bytes, [+], [%XX]
    escapes and the separators [=] and [&] only: parameter names and
    values, and the text of the timeout, are escaped, so that no space,
    [#], [?] or [/] of theirs reaches the URL.  When the base URL does
    not parse the query is empty. *)
Theorem wrapURL_query_is_escaped (r : request) :
  forallb queryByte (String.list_ascii_of_string (RawQuery (wrapURL r).2)) = true.
Proof.
  destruct (parsedBase r) as [u|e] eqn:Hp.
  - destruct (wrapURL_parsed r u Hp) as [_ ->]. apply Encode_bytes.
  - by rewrite (wrapURL_failed r e Hp).
Qed.

End QueryProperties.

(* ===================================================================== *)
(** ** Properties of the earlier revision of Do *)
(* ===================================================================== *)

Section LegacyProperties.
Context `{GoLib}.

Lemma Legacy_loop_bound n : ∀ client rt r w slept,
  ∃ sent,
    (Legacy.loop n client rt r w slept).1.2 = w ++ sent
    ∧ (length sent ≤ n)%nat
    ∧ (Legacy.loop n client rt r w slept).2
      = slept + Legacy.retryInterval
                * Z.of_nat (retriedAttempts (method r) client w sent)
    ∧ (length sent ≤ S (retriedAttempts (method r) client w sent))%nat
    ∧ Forall (λ req, req_ctx req = ctxBackground) sent.
Proof.
  induction n as [|n IH]; intros client rt r w slept; cbn [Legacy.loop].
  { exists []. rewrite app_nil_r. cbn. repeat split; [lia..|done]. }
  pose proof (same_config_fields _ _ (wrapURL_config r)) as (Hm & _).
  destruct (wrapURL r) as [r1 url]. cbn [fst] in Hm.
  destruct (http_NewRequest (method r1) (URL_String url) (body r1)) as [req0|e] eqn:Hb.
  2:{ exists []. rewrite app_nil_r. cbn. repeat split; [lia..|done]. }
  set (req := Legacy.wire r1 req0).
  assert (Hctx : req_ctx req = ctxBackground).
  { by destruct (NewRequest_fields _ _ _ _ Hb) as (_ & _ & _ & ?). }
  assert (Hstop : retriedAnswer (method r) (client w req) = false →
    ∀ x : ResultV1.result,
    ∃ sent,
      (x, r1, w ++ [req], slept).1.2 = w ++ sent
      ∧ (length sent ≤ S n)%nat
      ∧ (x, r1, w ++ [req], slept).2
        = slept + Legacy.retryInterval
                  * Z.of_nat (retriedAttempts (method r) client w sent)
      ∧ (length sent ≤ S (retriedAttempts (method r) client w sent))%nat
      ∧ Forall (λ req, req_ctx req = ctxBackground) sent).
  { intros Hno x. exists [req]. cbn [retriedAttempts length fst snd].
    rewrite Hno. cbn. repeat split; [lia..|by constructor]. }
  assert (Hgo : retriedAnswer (method r) (client w req) = true →
    ∃ sent,
      (Legacy.loop n client rt r1 (w ++ [req])
         (slept + Legacy.retryInterval)).1.2 = w ++ sent
      ∧ (length sent ≤ S n)%nat
      ∧ (Legacy.loop n client rt r1 (w ++ [req])
           (slept + Legacy.retryInterval)).2
        = slept + Legacy.retryInterval
                  * Z.of_nat (retriedAttempts (method r) client w sent)
      ∧ (length sent ≤ S (retriedAttempts (method r) client w sent))%nat
      ∧ Forall (λ req, req_ctx req = ctxBackground) sent).
  { intros Hyes.
    destruct (IH client rt r1 (w ++ [req]) (slept + Legacy.retryInterval))
      as (s2 & Hw2 & Hl & Hs2 & Hk & Hall).
    rewrite Hm in Hs2, Hk. rewrite <- app_assoc in Hw2.
    exists (req :: s2). cbn [retriedAttempts length]. rewrite Hyes.
    split; [exact Hw2|]. split; [lia|]. split; [|split; [lia|by constructor]].
    etrans; [exact Hs2|]. unfold Legacy.retryInterval. lia. }
  unfold retriedAnswer in Hstop, Hgo. rewrite Hm.
  destruct (client w req) as [resp|e].
  - destruct (resp_Body resp) as [[data [[]|]]|]; auto.
  - destruct (isConnectionReset e), (String.eqb (method r) MethodGet);
      cbn [negb orb andb] in *; auto.
Qed.

(** The earlier Do makes at most three attempts (maxRetries counts the
    attempts, not the retries) and sleeps 20ms after every attempt it
    retries, and only then: the time slept is 20ms for each dispatched
    request whose answer was a connection reset on a GET or a body that
    broke off, and every dispatched request but the last was such a one,
    so at most 60ms are slept.  Every request is sent with the background
    context: the result of req.WithContext is dropped, so a context given
    with WithContext never reaches the wire. *)
Theorem Legacy_Do_bounds (r : request) (w : world) :
  ∃ sent,
    (Legacy.Do r w).1.2 = w ++ sent
    ∧ (length sent ≤ 3)%nat
    ∧ (Legacy.Do r w).2
      = 20000000 * Z.of_nat (retriedAttempts (method r) (effectiveClient r) w sent)
    ∧ (retriedAttempts (method r) (effectiveClient r) w sent ≤ length sent
       ≤ S (retriedAttempts (method r) (effectiveClient r) w sent))%nat
    ∧ ∀ req, req ∈ sent → req_ctx req = ctxBackground.
Proof.
  assert (Hcount : ∀ m c sent w0, (retriedAttempts m c w0 sent ≤ length sent)%nat).
  { intros m c sent. induction sent as [|req sent IHs]; intros w0; cbn; [lia|].
    specialize (IHs (w0 ++ [req])). destruct (retriedAnswer _ _); lia. }
  unfold Legacy.Do. destruct (err r).
  { exists []. rewrite app_nil_r. cbn. repeat split; [lia..|].
    intros req Hin. by apply not_elem_of_nil in Hin. }
  destruct (Legacy_loop_bound Legacy.maxRetries (default http_DefaultClient (client r))
              ResultV1.zero r w 0) as (sent & Hw & Hl & Hs & Hk & Hall).
  exists sent. rewrite Forall_forall in Hall. unfold effectiveClient.
  split; [exact Hw|]. split; [exact Hl|]. split; [exact Hs|].
  split; [|exact Hall]. split; [apply Hcount|exact Hk].
Qed.

Lemma Legacy_loop_reset n : ∀ r w slept,
  method r = MethodGet → buildable r → always_reset (effectiveClient r) →
  ∃ r' w',
    Legacy.loop n (effectiveClient r) ResultV1.zero r w slept
    = (ResultV1.mkResult [] (Some (otherError "unexpected error")) 0 "", r', w',
       slept + Legacy.retryInterval * Z.of_nat n)
    ∧ length w' = (length w + n)%nat.
Proof.
  induction n as [|n IH]; intros r w slept Hm Hb Hreset; cbn [Legacy.loop].
  { exists r, w. split; [|lia]. f_equal. unfold Legacy.retryInterval. lia. }
  pose proof (wrapURL_config r) as Hc.
  pose proof (same_config_fields _ _ Hc) as (Hm' & Hcl & Hbody & _).
  destruct Hb as [req0 Hb].
  destruct (wrapURL r) as [r1 url] eqn:Hw. cbn [fst snd] in *.
  rewrite Hm', Hbody, Hb.
  destruct (Hreset w (Legacy.wire r1 req0)) as (e & -> & He).
  rewrite He, Hm. change (String.eqb MethodGet MethodGet) with true. cbn [negb orb].
  assert (Heff : effectiveClient r1 = effectiveClient r).
  { unfold effectiveClient. by rewrite Hcl. }
  destruct (IH r1 (w ++ [Legacy.wire r1 req0]) (slept + Legacy.retryInterval))
    as (r' & w' & Hloop & Hl).
  - by rewrite Hm'.
  - eapply buildable_config; [exact Hc|]. exists req0. by rewrite Hw.
  - by rewrite Heff.
  - rewrite Heff in Hloop. rewrite Hloop. exists r', w'. split.
    + f_equal. unfold Legacy.retryInterval. lia.
    + rewrite Hl, length_app. cbn. lia.
Qed.

(** In the earlier revision a GET that meets a connection reset on every
    round trip is sent three times, with 60ms of sleep in all, and ends
    with "unexpected error" and no status. *)
Theorem Legacy_Do_GET_reset_exhausts (r : request) (w : world) :
  method r = MethodGet → err r = None → buildable r →
  always_reset (effectiveClient r) →
  (Legacy.Do r w).1.1.1
  = ResultV1.mkResult [] (Some (otherError "unexpected error")) 0 ""
  ∧ invocations w (Legacy.Do r w).1.2 = 3
  ∧ (Legacy.Do r w).2 = 60000000.
Proof.
  intros Hm He Hb Hreset. unfold Legacy.Do. rewrite He.
  destruct (Legacy_loop_reset Legacy.maxRetries r w 0 Hm Hb Hreset)
    as (r' & w' & Hloop & Hl).
  unfold effectiveClient in Hloop. rewrite Hloop. cbn [fst snd].
  split; [done|]. split; [|done]. unfold invocations. rewrite Hl.
  unfold Legacy.maxRetries. lia.
Qed.

(** With the earlier pair of Do and Into, a response whose status is not
    200 is a successful Do whose Into fails for every target, a nil one
    too, with an error that quotes the status text of the response. *)
Theorem Legacy_status_error_at_Into
    (r : request) (w : world) (resp : response) (obj : option Any) :
  err r = None → buildable r →
  (∀ req, effectiveClient r w req = inl resp) →
  readError resp = None → resp_StatusCode resp ≠ StatusOK →
  ResultV1.err (Legacy.Do r w).1.1.1 = None
  ∧ invocations w (Legacy.Do r w).1.2 = 1
  ∧ (ResultV1.Into (Legacy.Do r w).1.1.1 obj).2
    = Some (otherError ("http response with status: " +:+ resp_Status resp)).
Proof.
  intros He [req0 Hb] Hans Hread Hcode. unfold Legacy.Do. rewrite He.
  change Legacy.maxRetries with 3%nat. cbn [Legacy.loop].
  pose proof (same_config_fields _ _ (wrapURL_config r)) as (Hm' & Hcl & Hbody & _).
  destruct (wrapURL r) as [r1 url]. cbn [fst snd] in *.
  rewrite Hm', Hbody, Hb. unfold effectiveClient in Hans. rewrite Hans.
  unfold readError in Hread.
  assert (Hinto : ∀ data,
    (ResultV1.Into (Legacy.set_response ResultV1.zero data resp) obj).2
    = Some (otherError ("http response with status: " +:+ resp_Status resp))).
  { intros data. unfold ResultV1.Into. cbn.
    by destruct (Z.eqb_spec (resp_StatusCode resp) StatusOK). }
  destruct (resp_Body resp) as [[data [e|]]|]; [discriminate|..]; cbn [fst snd];
    (split; [done|]); (split; [apply invocations_one|apply Hinto]).
Qed.

End LegacyProperties.

Section TruncationProperties.
Context `{GoLib}.

Lemma classify_truncated (m : string) (resp : response) :
  readError resp = Some io_ErrUnexpectedEOF →
  classify m (inl resp) = (ResultV2.zero, true).
Proof.
  unfold readError, classify.
  destruct (resp_Body resp) as [[data [e|]]|]; [|discriminate|discriminate].
  by intros [= ->].
Qed.

Lemma tryOnce_truncated (r : request) (w : world) :
  buildable r → always_truncated (effectiveClient r) →
  ∃ req, tryOnce r w = ((ResultV2.zero, true), afterAttempt (wrapURL r).1, w ++ [req]).
Proof.
  intros [req0 Hb] Htr. eexists. rewrite (tryOnce_built r w req0 Hb).
  destruct (Htr w (dressed (wrapURL r).1 req0)) as (resp & -> & Hread).
  by rewrite (classify_truncated _ _ Hread).
Qed.

Lemma retryLoop_truncated n : ∀ r w,
  buildable r → always_truncated (effectiveClient r) →
  (retryLoop n ResultV2.zero r w).1.1 = exhausted
  ∧ length (retryLoop n ResultV2.zero r w).2 = (length w + n)%nat.
Proof.
  induction n as [|n IH]; intros r w Hb Htr; cbn [retryLoop].
  - split; [done|]. cbn. lia.
  - destruct (tryOnce_truncated r w Hb Htr) as [req Ht].
    pose proof (tryOnce_config r w) as Hc. rewrite Ht in *. cbn [fst snd negb] in *.
    pose proof (same_config_fields _ _ Hc) as (_ & Hcl & _).
    destruct (IH (afterAttempt (wrapURL r).1) (w ++ [req])) as [-> Hl].
    + by eapply buildable_config.
    + unfold effectiveClient in *. by rewrite Hcl.
    + split; [done|]. rewrite Hl, length_app. cbn. lia.
Qed.

(** A response body that breaks off with io.ErrUnexpectedEOF is retried
    for every method, not for GET alone: when every answer is such a
    response, Do calls the client retryCount + 1 times and ends with
    "unexpected error". *)
Theorem Do_truncated_body_retried_for_every_method (r : request) (w : world) :
  0 ≤ retryCount r → err r = None → buildable r →
  always_truncated (effectiveClient r) →
  (Do r w).1.1 = exhausted ∧ invocations w (Do r w).2 = retryCount r + 1.
Proof.
  intros Hrc He Hb Htr. unfold Do. rewrite He.
  destruct (tryOnce_truncated r w Hb Htr) as [req Ht].
  pose proof (tryOnce_config r w) as Hc. rewrite Ht in *. cbn [fst snd negb] in *.
  pose proof (same_config_fields _ _ Hc) as (_ & Hcl & _ & Hrc' & _).
  destruct (retryLoop_truncated (Z.to_nat (retryCount (afterAttempt (wrapURL r).1)))
              (afterAttempt (wrapURL r).1) (w ++ [req])) as [-> Hl].
  - by eapply buildable_config.
  - unfold effectiveClient in *. by rewrite Hcl.
  - split; [done|]. unfold invocations. rewrite Hl, length_app, Hrc'. cbn. lia.
Qed.

End TruncationProperties.

(* ===================================================================== *)
(** ** Further runs on concrete configurations *)
(* ===================================================================== *)

Lemma Do_returns_first_response_witness :
  (Do getAnswer []).1.1 = ResultV2.mkResult (Sample.bytes "42") None 200
  ∧ invocations [] (Do getAnswer []).2 = 1.
Proof.
  apply (Do_returns_first_response getAnswer [] (okResponse "42")).
  - reflexivity.
  - eexists. vm_compute. reflexivity.
  - intros req. reflexivity.
  - reflexivity.
Defined.

Lemma Do_body_read_error_witness :
  (Do getBrokenBody []).1.1
  = ResultV2.mkResult [] (Some (otherError "read tcp: i/o timeout")) 0
  ∧ invocations [] (Do getBrokenBody []).2 = 1.
Proof.
  apply (Do_body_read_error_is_fatal getBrokenBody []
           (mkResponse 200 "200 OK"
              (Some (Sample.bytes "{", Some (otherError "read tcp: i/o timeout"))))).
  - reflexivity.
  - eexists. vm_compute. reflexivity.
  - intros req. reflexivity.
  - reflexivity.
  - discriminate.
Defined.

Lemma Do_GET_recovers_witness :
  (Do getFlaky []).1.1 = ResultV2.mkResult (Sample.bytes "42") None 200
  ∧ invocations [] (Do getFlaky []).2 = 3.
Proof.
  apply (Do_GET_recovers_after_resets getFlaky [] (okResponse "42") 2).
  - reflexivity.
  - reflexivity.
  - eexists. vm_compute. reflexivity.
  - vm_compute. discriminate.
  - intros w' req Hw'. exists (Sample.connReset req). split; [|reflexivity].
    change (effectiveClient getFlaky) with (flakyClient 2 "42"). unfold flakyClient.
    destruct (Nat.ltb_spec (length w') 2); [reflexivity|]. cbn in Hw'. lia.
  - intros w' req Hw'.
    change (effectiveClient getFlaky) with (flakyClient 2 "42"). unfold flakyClient.
    rewrite Hw'. reflexivity.
  - reflexivity.
Defined.

Lemma Do_nonpositive_bound_witness :
  retryCount getNegativeBound = -1
  ∧ (Do getNegativeBound []).1.1 = exhausted
  ∧ invocations [] (Do getNegativeBound []).2 = 1.
Proof.
  split; [reflexivity|].
  assert (Hrc : retryCount getNegativeBound ≤ 0) by (vm_compute; discriminate).
  destruct (Do_nonpositive_bound_single_attempt getNegativeBound [] Hrc) as [_ Hone].
  apply Hone.
  - reflexivity.
  - reflexivity.
  - eexists. vm_compute. reflexivity.
  - intros req. eexists. split; reflexivity.
Defined.

Lemma retries_under_timeout_witness :
  ∃ sent, (Do getUserWithTimeout []).2 = [] ++ sent
    ∧ length sent = 3%nat
    ∧ (∀ req, req ∈ tail sent → ctx_done (req_ctx req) = true)
    ∧ ctxDone (Do getUserWithTimeout []).1.2.
Proof.
  assert (Ht : 0 < timeout getUserWithTimeout) by (vm_compute; reflexivity).
  destruct (retries_under_timeout_start_canceled getUserWithTimeout [] Ht)
    as (sent & Hw & Htail & Hctx).
  exists sent. split; [exact Hw|].
  assert (Hlen : length sent = 3%nat).
  { cbn [app] in Hw. rewrite <- Hw. vm_compute. reflexivity. }
  split; [exact Hlen|]. split; [exact Htail|].
  apply Hctx. intros ->. discriminate Hlen.
Defined.

Lemma Body_failure_surfaces_witness :
  (Do postChan []).2 = []
  ∧ @ResultV2.Into Sample.lib (Do postChan []).1.1 (Some (Sample.VInt 0))
    = ((Do postChan []).1.1, Some (Sample.VInt 0), Some chanError).
Proof.
  exact (Body_failure_surfaces_at_Into
           (@Post Sample.lib (NewClient (Some (Sample.okClient "{}")) exampleBase))
           Sample.VChan chanError [] (Some (Sample.VInt 0)) eq_refl).
Defined.

Lemma empty_response_witness :
  ResultV2.err (Do getNoContent []).1.1 = None
  ∧ (@ResultV2.Into Sample.lib (Do getNoContent []).1.1 (Some (Sample.VInt 0))).2
    = Some (otherError "empty response body with status code: 204")
  ∧ (@ResultV2.Into Sample.lib (Do getNoContent []).1.1 None).2 = None.
Proof.
  apply (empty_response_fails_at_Into getNoContent []
           (mkResponse 204 "204 No Content" (Some (Sample.bytes "", None)))
           (Sample.VInt 0)).
  - reflexivity.
  - eexists. vm_compute. reflexivity.
  - intros req. reflexivity.
  - reflexivity.
  - reflexivity.
Defined.

Lemma Do_truncated_body_witness :
  method postTruncated = MethodPost
  ∧ (Do postTruncated []).1.1 = exhausted
  ∧ invocations [] (Do postTruncated []).2 = 2.
Proof.
  split; [reflexivity|].
  apply (Do_truncated_body_retried_for_every_method postTruncated []).
  - vm_compute. discriminate.
  - reflexivity.
  - eexists. vm_compute. reflexivity.
  - intros w req. eexists. split; reflexivity.
Defined.

Lemma Legacy_Do_GET_reset_witness :
  (Legacy.Do getUser []).1.1.1
  = ResultV1.mkResult [] (Some (otherError "unexpected error")) 0 ""
  ∧ invocations [] (Legacy.Do getUser []).1.2 = 3
  ∧ (Legacy.Do getUser []).2 = 60000000.
Proof.
  apply (Legacy_Do_GET_reset_exhausts getUser []).
  - reflexivity.
  - reflexivity.
  - eexists. vm_compute. reflexivity.
  - intros w req. eexists. split; reflexivity.
Defined.

Lemma Legacy_status_error_witness :
  ResultV1.err (Legacy.Do getNotFound []).1.1.1 = None
  ∧ invocations [] (Legacy.Do getNotFound []).1.2 = 1
  ∧ (@ResultV1.Into Sample.lib (Legacy.Do getNotFound []).1.1.1 None).2
    = Some (otherError "http response with status: 404 Not Found").
Proof.
  apply (Legacy_status_error_at_Into getNotFound []
           (mkResponse 404 "404 Not Found" (Some (Sample.bytes "{}", None))) None).
  - reflexivity.
  - eexists. vm_compute. reflexivity.
  - intros req. reflexivity.
  - reflexivity.
  - discriminate.
Defined.

Example WithParams_sample :
  Values.Encode
    (paramsOf (WithParams (WithParam getAnswer "limit" "10")
                 {[ "limit" := "20"; "page" := "2" ]}))
  = "limit=10&limit=20&page=2".
Proof. vm_compute. reflexivity. Qed.

Example escaped_query_sample :
  RawQuery (wrapURL (WithParam getAnswer "q" "a b&c=d/é")).2
  = "q=a+b%26c%3Dd%2F%C3%A9".
Proof. vm_compute. reflexivity. Qed.

(* ===================================================================== *)
(** ** Context, credentials and decoding from end to end *)
(* ===================================================================== *)

Section EndToEndProperties.
Context `{GoLib}.

(** An attempt sends nothing and asks for no retry, or sends one request
    whose context is derived from r.ctx. *)
Lemma tryOnce_context (r : request) (w : world) :
  ((tryOnce r w).2 = w ∧ (tryOnce r w).1.1.2 = false)
  ∨ ∃ req, (tryOnce r w).2 = w ++ [req]
      ∧ req_ctx req
        = if 0 <? timeout r
          then ctxWithTimeout (default ctxBackground (ctx r)) (timeout r)
          else default ctxBackground (ctx r).
Proof.
  destruct (wrapURL_ctx_timeout r) as [Hc Ht].
  destruct (tryOnce_after r w) as [(_ & -> & ->)|(req0 & Hb & _ & ->)]; [by left|].
  right. eexists. split; [done|].
  destruct (dressed_fields (wrapURL r).1 req0) as (_ & _ & _ & _ & ->).
  destruct (NewRequest_fields _ _ _ _ Hb) as (_ & _ & _ & ->).
  by rewrite Ht, Hc.
Qed.

Lemma retryLoop_context n : ∀ rt r w,
  timeout r ≤ 0 →
  ∃ sent, (retryLoop n rt r w).2 = w ++ sent
    ∧ ∀ req, req ∈ sent → req_ctx req = default ctxBackground (ctx r).
Proof.
  induction n as [|n IH]; intros rt r w Ht; cbn [retryLoop].
  - exists []. rewrite app_nil_r. split; [done|].
    intros req Hin. by apply not_elem_of_nil in Hin.
  - pose proof (tryOnce_context r w) as Hcase.
    destruct (tryOnce_err_ctx r w) as [Hctx _].
    pose proof (same_config_fields _ _ (tryOnce_config r w)) as (_&_&_&_& Ht' &_).
    destruct (tryOnce r w) as [[[rt1 retry] r1] w1]. cbn [fst snd] in *.
    destruct Hcase as [[-> ->]|(req & -> & Hreq)].
    + cbn [negb snd]. exists []. rewrite app_nil_r. split; [done|].
      intros req Hin. by apply not_elem_of_nil in Hin.
    + assert (Hreq' : req_ctx req = default ctxBackground (ctx r)).
      { rewrite Hreq. destruct (Z.ltb_spec 0 (timeout r)); [lia|done]. }
      destruct retry; cbn [negb snd].
      * destruct (IH rt1 r1 (w ++ [req])) as (s2 & -> & Hs2); [lia|].
        exists (req :: s2). rewrite <- app_assoc. split; [done|].
        intros req' [->|Hin]%elem_of_cons; [done|].
        rewrite (Hs2 req' Hin), Hctx; [done|lia].
      * exists [req]. split; [done|]. by intros req' ->%list_elem_of_singleton.
Qed.

(** The context of the requests Do dispatches.  Without a positive
    timeout every request carries the context given with WithContext
    (the background context when none was given); with a positive
    timeout the first request carries a timeout context derived from
    it. *)
Theorem Do_request_context (r : request) (w : world) :
  ∃ sent, (Do r w).2 = w ++ sent
    ∧ (timeout r ≤ 0 →
       ∀ req, req ∈ sent → req_ctx req = default ctxBackground (ctx r))
    ∧ (0 < timeout r →
       ∀ req, head sent = Some req →
         req_ctx req = ctxWithTimeout (default ctxBackground (ctx r)) (timeout r)).
Proof.
  unfold Do. destruct (err r).
  { exists []. rewrite app_nil_r. split; [done|]. split.
    - intros _ req Hin. by apply not_elem_of_nil in Hin.
    - intros _ req. discriminate. }
  pose proof (tryOnce_context r w) as Hcase.
  destruct (tryOnce_err_ctx r w) as [Hctx _].
  pose proof (same_config_fields _ _ (tryOnce_config r w)) as (_&_&_&_& Ht' &_).
  destruct (tryOnce r w) as [[[rt1 retry] r1] w1]. cbn [fst snd] in *.
  destruct Hcase as [[-> ->]|(req & -> & Hreq)].
  - cbn [negb snd]. exists []. rewrite app_nil_r. split; [done|]. split.
    + intros _ req Hin. by apply not_elem_of_nil in Hin.
    + intros _ req. discriminate.
  - assert (Hsent : ∃ s2', (if negb retry then (rt1, r1, w ++ [req])
                            else retryLoop (Z.to_nat (retryCount r1)) rt1 r1
                                   (w ++ [req])).2 = w ++ req :: s2'
              ∧ (timeout r ≤ 0 →
                 ∀ req', req' ∈ s2' → req_ctx req' = default ctxBackground (ctx r))).
    { destruct retry; cbn [negb snd].
      - destruct (Z_le_gt_dec (timeout r) 0) as [Hle|Hgt].
        + assert (Ht1 : timeout r1 ≤ 0) by lia.
          destruct (retryLoop_context (Z.to_nat (retryCount r1)) rt1 r1 (w ++ [req]) Ht1)
            as (s3 & Hw3 & Hs3).
          rewrite <- app_assoc in Hw3. exists s3. split; [exact Hw3|].
          intros _ req' Hin. rewrite (Hs3 req' Hin), Hctx; [done|lia].
        + destruct (retryLoop_log (Z.to_nat (retryCount r1)) rt1 r1 (w ++ [req]))
            as (s2 & Hw2 & _).
          rewrite <- app_assoc in Hw2. exists s2. split; [exact Hw2|]. lia.
      - exists []. split; [done|]. intros _ req' Hin.
        by apply not_elem_of_nil in Hin. }
    destruct Hsent as (s2' & Hw' & Hrest). exists (req :: s2').
    split; [exact Hw'|]. split.
    + intros Hle req' [->|Hin]%elem_of_cons; [|by apply Hrest].
      rewrite Hreq. destruct (Z.ltb_spec 0 (timeout r)); [lia|done].
    + intros Hgt req' [= <-]. rewrite Hreq.
      destruct (Z.ltb_spec 0 (timeout r)); [done|lia].
Qed.

(** When http.NewRequest rejects the method or the composed URL, Do
    returns its error at once: the client is not called and nothing is
    retried, whatever the retry bound. *)
Theorem Do_unbuildable_returns_error (r : request) (w : world) (e : error) :
  err r = None →
  http_NewRequest (method r) (URL_String (wrapURL r).2) (body r) = inr e →
  (Do r w).1.1 = ResultV2.mkResult [] (Some e) 0 ∧ (Do r w).2 = w.
Proof.
  intros He Hb. unfold Do. rewrite He. attempt_cases r w Hs.
  rewrite Hb in Hs. by rewrite Hs.
Qed.

Lemma wireHeader_Authorization (r : request) :
  wireHeader r !! "Authorization"
  = Some ["Basic " +:+ basicAuth (username r) (password r)].
Proof. unfold wireHeader, Header.Set'. apply lookup_insert_eq. Qed.

(** Credentials given to the client with SetBasicAuth reach the wire:
    every request dispatched by Do on a request that a verb method of
    that client returned, after any builder calls, carries the
    Authorization header "Basic " + base64(username:password). *)
Theorem client_credentials_reach_the_wire
    (rc : restClient) (u p m : string) (calls : list builderCall) (w : world) :
  ∃ sent,
    (Do (applyCalls (rc_method (SetBasicAuth rc u p) m) calls) w).2 = w ++ sent
    ∧ ∀ req, req ∈ sent →
        req_Header req !! "Authorization" = Some ["Basic " +:+ basicAuth u p].
Proof.
  set (r := applyCalls (rc_method (SetBasicAuth rc u p) m) calls).
  assert (Hseed : username r = u ∧ password r = p).
  { assert (Hgen : ∀ r0, username (fold_left applyCall calls r0) = username r0
                         ∧ password (fold_left applyCall calls r0) = password r0).
    { induction calls as [|c calls IH]; intros r0; cbn [fold_left]; [done|].
      destruct (IH (applyCall r0 c)) as [-> ->].
      by destruct (applyCall_seed r0 c) as (_ & _ & _ & -> & ->). }
    unfold r, applyCalls.
    by destruct (Hgen (rc_method (SetBasicAuth rc u p) m)) as [-> ->]. }
  destruct Hseed as [Hu Hp].
  destruct (Do_dispatched r w) as (sent & Hw & Hd). exists sent. split; [done|].
  rewrite Forall_forall in Hd. intros req (req0 & _ & _ & _ & _ & ->)%Hd.
  by rewrite wireHeader_Authorization, Hu, Hp.
Qed.

(** A response with a body that decodes reaches the target: Into on the
    result of Do returns nil and the target holds the decoded value.
    This Into does not look at the status code, so it holds for a
    response of any status. *)
Theorem decoded_response_reaches_target
    (r : request) (w : world) (resp : response) (o o' : Any) :
  err r = None → buildable r →
  (∀ req, effectiveClient r w req = inl resp) →
  readError resp = None → bodyOf resp ≠ [] →
  json_Decode (bodyOf resp) o = (o', None) →
  ResultV2.Into (Do r w).1.1 (Some o) = ((Do r w).1.1, Some o', None).
Proof.
  intros He [req0 Hb] Hans Hread Hne Hdec. unfold Do.
  rewrite He, (tryOnce_built r w req0 Hb), Hans, (classify_response _ _ Hread).
  cbn [negb fst snd]. unfold ResultV2.Into. cbn [ResultV2.err ResultV2.body].
  case_bool_decide as Hlen.
  - by destruct (bodyOf resp).
  - by rewrite Hdec.
Qed.

End EndToEndProperties.

Lemma Do_unbuildable_witness :
  (Do badMethod []).1.1
  = ResultV2.mkResult []
      (Some (otherError ("net/http: invalid method " +:+ Sample.quote "GET /"))) 0
  ∧ (Do badMethod []).2 = [].
Proof.
  apply (Do_unbuildable_returns_error badMethod []).
  - reflexivity.
  - vm_compute. reflexivity.
Defined.

Lemma decoded_response_witness :
  @ResultV2.Into Sample.lib (Do getAnswer []).1.1 (Some (Sample.VInt 0))
  = ((Do getAnswer []).1.1, Some (Sample.VInt 42), None).
Proof.
  apply (decoded_response_reaches_target getAnswer [] (okResponse "42")).
  - reflexivity.
  - eexists. vm_compute. reflexivity.
  - intros req. reflexivity.
  - reflexivity.
  - discriminate.
  - vm_compute. reflexivity.
Defined.

Example credentials_sample :
  map (λ req, req_Header req !! "Authorization") (Do getWithCredentials []).2
  = [Some ["Basic QWxhZGRpbjpvcGVuIHNlc2FtZQ=="]].
Proof. vm_compute. reflexivity. Qed.

Example empty_port_sample :
  (∃ u, Sample.parse (Sample.urlString (wrapURL getEmptyPort).2) = inl u
        ∧ Host u = "example.com:")
  ∧ map (λ req, Host (req_URL req)) (Do getEmptyPort []).2 = ["example.com"].
Proof. split; [eexists; split|]; vm_compute; reflexivity. Qed.
